(** * text2query: the generation / safety core of [app.py]

    A shallow embedding of the pure string pipeline of [app.py]
    ([build_prompt], [extract_sql], [safe_sql_check], [detect_top_n]) and of
    the two Streamlit handlers that call it (the "Generate SQL Query" and the
    "Run Query" buttons), followed by the properties stated for them.

    Python [str] values are modelled as lists of 8-bit characters: a character
    is a code point below 256.  On that alphabet [str.lower], [str.strip],
    the regex classes [\s] and [\d] and case-insensitive matching are closed
    and are given here by their exact tables. *)

From Stdlib Require Import Ascii String DecimalString.
From Stdlib Require Import Bool Arith ZArith NArith Lia List.
Import ListNotations.

(** ** Python strings *)

Module PyStr.

Definition pystr := list ascii.

(** A literal of the source. *)
Definition str (s : string) : pystr := list_ascii_of_string s.

Definition code (c : ascii) : N := N_of_ascii c.

(** [str.isspace] on one character: TAB..CR, FS..US, SPACE, NEL, NBSP. *)
Definition isspace (c : ascii) : bool :=
  let n := code c in
  (((9 <=? n) && (n <=? 13)) || ((28 <=? n) && (n <=? 32))
   || (n =? 133) || (n =? 160))%N.

(** The regex class [\d] (Unicode decimal digits below 256). *)
Definition isdecimal (c : ascii) : bool :=
  let n := code c in ((48 <=? n) && (n <=? 57))%N.

(** [str.lower] on one character: A..Z and the accented capitals
    U+00C0..U+00DE except the multiplication sign U+00D7. *)
Definition lower_char (c : ascii) : ascii :=
  let n := code c in
  if (((65 <=? n) && (n <=? 90))
      || ((192 <=? n) && (n <=? 222) && negb (n =? 215)))%N
  then ascii_of_N (n + 32) else c.

Definition lower (s : pystr) : pystr := map lower_char s.

Fixpoint lstrip (s : pystr) : pystr :=
  match s with
  | c :: s' => if isspace c then lstrip s' else s
  | [] => []
  end.

Fixpoint rstrip (s : pystr) : pystr :=
  match s with
  | c :: s' =>
      match rstrip s' with
      | [] => if isspace c then [] else [c]
      | r => c :: r
      end
  | [] => []
  end.

(** [s.strip()] *)
Definition strip (s : pystr) : pystr := rstrip (lstrip s).

(** Truth value of a string: [if s], [if not s]. *)
Definition truthy (s : pystr) : bool :=
  match s with [] => false | _ :: _ => true end.

(** [s.startswith(p)] *)
Fixpoint startswith (s p : pystr) {struct p} : bool :=
  match p with
  | [] => true
  | a :: p' =>
      match s with
      | b :: s' => Ascii.eqb a b && startswith s' p'
      | [] => false
      end
  end.

(** [s.endswith(p)] *)
Definition endswith (s p : pystr) : bool := startswith (rev s) (rev p).

(** [w in s] for strings: [w] occurs in [s] as a substring. *)
Fixpoint contains (w s : pystr) : bool :=
  startswith s w ||
  match s with
  | [] => false
  | _ :: s' => contains w s'
  end.

(** [sep.join(parts)] *)
Fixpoint join (sep : pystr) (parts : list pystr) : pystr :=
  match parts with
  | [] => []
  | [p] => p
  | p :: ps => p ++ sep ++ join sep ps
  end.

(** [int(digits)] for a run of decimal digits, as the exact value
    (CPython's configurable cap on the number of digits is left out). *)
Definition digit_value (c : ascii) : Z := Z.of_N (code c) - 48.

Definition int_of_digits (ds : pystr) : Z :=
  fold_left (fun acc c => 10 * acc + digit_value c)%Z ds 0%Z.

(** [f"{n}"] for an integer. *)
Definition format_int (n : Z) : pystr :=
  str (NilZero.string_of_int (Z.to_int n)).

(** A non-empty word without white space (statement vocabulary: such a
    word survives trimming). *)
Definition solid (w : pystr) : Prop :=
  w <> [] /\ forallb (fun c => negb (isspace c)) w = true.

End PyStr.
Import PyStr.

(** ** The safety gate *)

Definition forbidden : list pystr :=
  map str ["drop"; "delete"; "update"; "insert"; "alter"; "truncate";
           "merge"; "exec"; "call"]%string.

(** The [for w in forbidden: if w in s: return ...] loop: the first listed
    keyword that occurs in [s], if any. *)
Definition first_forbidden (s : pystr) : option pystr :=
  find (fun w => contains w s) forbidden.

Definition safe_sql_check (sql : pystr) : bool * pystr :=
  if negb (truthy (strip sql)) then (false, str "SQL empty.")
  else
    let s := strip (lower sql) in
    if negb (startswith s (str "select")) then (false, str "Only SELECT allowed.")
    else
      match first_forbidden s with
      | Some w => (false, str "Forbidden keyword '" ++ w ++ str "'.")
      | None => (true, [])
      end.

(** ** Regular expressions

    The fragment of Python's [re] used by [app.py]: literal characters,
    character classes, concatenation, alternation, capture groups, and
    greedy or lazy repetition of a one-character class.  Matching is the
    backtracking search of [re], written with a continuation: alternatives
    are tried in priority order and the first complete match wins. *)

Module Re.

Inductive regex : Type :=
| Eps
| Lit (c : ascii)
| Cls (p : ascii -> bool)
| Seq (r1 r2 : regex)
| Alt (r1 r2 : regex)
| Star (greedy : bool) (p : ascii -> bool)
| Grp (i : nat) (r : regex).

(** A literal word, e.g. [SELECT]. *)
Fixpoint lits (s : pystr) : regex :=
  match s with
  | [] => Eps
  | c :: s' => Seq (Lit c) (lits s')
  end.

(** [p+] *)
Definition Plus (greedy : bool) (p : ascii -> bool) : regex :=
  Seq (Cls p) (Star greedy p).

(** [\s], [\d] and [[\s\S]]. *)
Definition ws : ascii -> bool := isspace.
Definition digit : ascii -> bool := isdecimal.
Definition any : ascii -> bool := fun c => isspace c || negb (isspace c).

(** Captured groups, most recent binding first. *)
Definition captures := list (nat * pystr).

(** A pattern character against an input character; [ic] is the
    [re.IGNORECASE] flag. *)
Definition chr_match (ic : bool) (c x : ascii) : bool :=
  if ic then Ascii.eqb (lower_char c) (lower_char x) else Ascii.eqb c x.

Section Matcher.
Variable A : Type.
Variable ic : bool.

Definition cont := pystr -> captures -> option A.

(** [p*]: take as many as possible, give back one at a time. *)
Fixpoint star_greedy (p : ascii -> bool) (s : pystr) (caps : captures)
         (k : cont) : option A :=
  match s with
  | c :: s' =>
      if p c then
        match star_greedy p s' caps k with
        | Some x => Some x
        | None => k s caps
        end
      else k s caps
  | [] => k [] caps
  end.

(** [p*?]: take as few as possible, one more on failure. *)
Fixpoint star_lazy (p : ascii -> bool) (s : pystr) (caps : captures)
         (k : cont) : option A :=
  match k s caps with
  | Some x => Some x
  | None =>
      match s with
      | c :: s' => if p c then star_lazy p s' caps k else None
      | [] => None
      end
  end.

Fixpoint rx_match (r : regex) (s : pystr) (caps : captures) (k : cont)
  : option A :=
  match r with
  | Eps => k s caps
  | Lit c =>
      match s with
      | x :: s' => if chr_match ic c x then k s' caps else None
      | [] => None
      end
  | Cls p =>
      match s with
      | x :: s' => if p x then k s' caps else None
      | [] => None
      end
  | Seq r1 r2 =>
      rx_match r1 s caps (fun s' caps' => rx_match r2 s' caps' k)
  | Alt r1 r2 =>
      match rx_match r1 s caps k with
      | Some x => Some x
      | None => rx_match r2 s caps k
      end
  | Star true p => star_greedy p s caps k
  | Star false p => star_lazy p s caps k
  | Grp i r1 =>
      rx_match r1 s caps
        (fun s' caps' =>
           k s' ((i, firstn (length s - length s') s) :: caps'))
  end.
End Matcher.

Arguments star_greedy {A} p s caps k.
Arguments star_lazy {A} p s caps k.
Arguments rx_match {A} ic r s caps k.

(** A match object: the text before the match, group 0, the text after it,
    and the numbered groups. *)
Record rmatch : Type := MkMatch {
  m_pre : pystr;
  m_text : pystr;
  m_post : pystr;
  m_caps : captures
}.

(** The pattern matched at the very start of [s] ([re.match]). *)
Definition match_at (ic : bool) (r : regex) (s : pystr)
  : option (pystr * pystr * captures) :=
  rx_match ic r s []
    (fun rest caps => Some (firstn (length s - length rest) s, rest, caps)).

(** [re.search]: the match at the leftmost position that has one. *)
Fixpoint search_from (ic : bool) (r : regex) (pre s : pystr) : option rmatch :=
  match match_at ic r s with
  | Some (m, rest, caps) => Some (MkMatch pre m rest caps)
  | None =>
      match s with
      | [] => None
      | c :: s' => search_from ic r (pre ++ [c]) s'
      end
  end.

Definition search (ic : bool) (r : regex) (s : pystr) : option rmatch :=
  search_from ic r [] s.

(** [m.group(i)]; every group of the patterns below takes part in every
    match, so the absent case (Python's [None]) does not arise. *)
Definition group (m : rmatch) (i : nat) : pystr :=
  match i with
  | O => m_text m
  | _ =>
      match find (fun b => Nat.eqb (fst b) i) (m_caps m) with
      | Some b => snd b
      | None => []
      end
  end.

(** [re.sub(r, '', s)] for a pattern whose matches are never empty: scan
    left to right, delete each leftmost match, resume right after it.
    [skip] counts the characters of the current match still to delete. *)
Fixpoint sub_remove_from (ic : bool) (r : regex) (skip : nat) (s : pystr)
  : pystr :=
  match s with
  | [] => []
  | c :: s' =>
      match skip with
      | S n => sub_remove_from ic r n s'
      | O =>
          match match_at ic r s with
          | Some (_ :: m', _, _) => sub_remove_from ic r (length m') s'
          | _ => c :: sub_remove_from ic r O s'
          end
      end
  end.

Definition sub_remove (ic : bool) (r : regex) (s : pystr) : pystr :=
  sub_remove_from ic r 0 s.

(** The language of a pattern: which texts it can match in full,
    whatever the priorities. *)
Inductive lang (ic : bool) : regex -> pystr -> Prop :=
| L_Eps : lang ic Eps []
| L_Lit c x : chr_match ic c x = true -> lang ic (Lit c) [x]
| L_Cls (p : ascii -> bool) x : p x = true -> lang ic (Cls p) [x]
| L_Seq r1 r2 m1 m2 :
    lang ic r1 m1 -> lang ic r2 m2 -> lang ic (Seq r1 r2) (m1 ++ m2)
| L_AltL r1 r2 m : lang ic r1 m -> lang ic (Alt r1 r2) m
| L_AltR r1 r2 m : lang ic r2 m -> lang ic (Alt r1 r2) m
| L_Star g (p : ascii -> bool) m :
    forallb p m = true -> lang ic (Star g p) m
| L_Grp i r m : lang ic r m -> lang ic (Grp i r) m.

End Re.

(** ** The SQL extractor *)

Definition backticks : pystr := str "```".
Definition tick : ascii := "`"%char.

(** [r'```sql\s*'] *)
Definition FENCE_SQL : Re.regex :=
  Re.Seq (Re.lits (str "```sql")) (Re.Star true Re.ws).

(** [r'```\s*'] *)
Definition FENCE : Re.regex :=
  Re.Seq (Re.lits (str "```")) (Re.Star true Re.ws).

(** The first search pattern: group 1 around [SELECT[\s\S]*?;]. *)
Definition SELECT_STMT : Re.regex :=
  Re.Grp 1 (Re.Seq (Re.lits (str "SELECT"))
                   (Re.Seq (Re.Star false Re.any) (Re.Lit ";"))).

(** The fallback search pattern: group 1 around [SELECT[\s\S]*]. *)
Definition SELECT_REST : Re.regex :=
  Re.Grp 1 (Re.Seq (Re.lits (str "SELECT")) (Re.Star true Re.any)).

(** The two [re.sub] calls that drop the markdown fence markers. *)
Definition strip_fences (raw : pystr) : pystr :=
  Re.sub_remove false FENCE (Re.sub_remove false FENCE_SQL raw).

Definition extract_sql (raw : pystr) : pystr :=
  let raw := strip_fences raw in
  let candidate :=
    match Re.search true SELECT_STMT raw with
    | Some m => strip (Re.group m 1)
    | None =>
        match Re.search true SELECT_REST raw with
        | Some m => strip (Re.group m 1)
        | None => []
        end
    end in
  let candidate :=
    if truthy candidate && negb (endswith candidate (str ";"))
    then candidate ++ str ";" else candidate in
  if truthy candidate then strip candidate else [].

(** The shape promised for a non-empty result: it starts with [SELECT] in
    any letter case and ends with a semicolon. *)
Definition well_formed (out : pystr) : Prop :=
  startswith (lower out) (str "select") = true /\ endswith out (str ";") = true.

(** ** The top-N detector *)

(** The pattern [(top|first)\s+(\d+)]. *)
Definition TOP_N : Re.regex :=
  Re.Seq (Re.Grp 1 (Re.Alt (Re.lits (str "top")) (Re.lits (str "first"))))
         (Re.Seq (Re.Plus true Re.ws) (Re.Grp 2 (Re.Plus true Re.digit))).

Definition detect_top_n (q : pystr) : option Z :=
  let q := strip (lower q) in
  match Re.search false TOP_N q with
  | Some m => Some (int_of_digits (Re.group m 2))
  | None => None
  end.

(** ** The prompt builder *)

Definition DEFAULT_LIMIT : Z := 100.
Definition USE_LLM : bool := true.

Definition nl : pystr := [ascii_of_nat 10].
Definition dq : pystr := [ascii_of_nat 34].

(** The text of a triple-quoted block, given line by line: every line is
    followed by a newline. *)
Definition unlines (ls : list pystr) : pystr :=
  concat (map (fun l => l ++ nl) ls).

(** A few-shot pair of the prompt: the question in double quotes, then the
    query, then a blank line between pairs. *)
Definition example_q (q : string) : pystr := str "Question: " ++ dq ++ str q ++ dq.

Definition preamble_lines : list pystr :=
  [ str "You are an expert MySQL query generator. Convert natural language questions into valid MySQL SELECT statements.";
    [];
    str "IMPORTANT RULES:";
    str "1. Output ONLY the SQL query";
    str "2. No explanations, no markdown code blocks, no commentary";
    str "3. Use LIMIT " ++ format_int DEFAULT_LIMIT ++ str " unless the user specifies a different limit";
    str "4. Always use proper table and column aliases when needed";
    str "5. Ensure the query is syntactically correct for MySQL";
    str "6. Use backticks for table/column names if they contain special characters";
    [];
    str "DATABASE INFORMATION:" ].

Definition example_lines : list pystr :=
  [ [];
    str "EXAMPLES OF GOOD QUERIES:";
    [];
    example_q "Show me all records";
    str "SQL: SELECT * FROM `table_name` LIMIT 100;";
    [];
    example_q "Top 5 highest prices";
    str "SQL: SELECT * FROM `table_name` ORDER BY price DESC LIMIT 5;";
    [];
    example_q "Count by category";
    str "SQL: SELECT category, COUNT(*) as count FROM `table_name` GROUP BY category LIMIT 100;";
    [];
    example_q "Average price by category";
    str "SQL: SELECT category, AVG(price) as avg_price FROM `table_name` GROUP BY category LIMIT 100;";
    [];
    example_q "Records where status is active";
    str "SQL: SELECT * FROM `table_name` WHERE status = 'active' LIMIT 100;";
    [];
    example_q "Total sales by month";
    str "SQL: SELECT DATE_FORMAT(date_column, '%Y-%m') as month, SUM(sales) as total FROM `table_name` GROUP BY month ORDER BY month DESC LIMIT 100;" ].

(** [", ".join([f"{c} ({t})" for c, t in columns]) if columns else "(unknown)"] *)
Definition cols_detail (columns : list (pystr * pystr)) : pystr :=
  match columns with
  | [] => str "(unknown)"
  | _ :: _ =>
      join (str ", ")
           (map (fun ct => fst ct ++ str " (" ++ snd ct ++ str ")") columns)
  end.

Definition build_prompt (table : pystr) (columns : list (pystr * pystr))
           (question sample_data previous_error : pystr) : pystr :=
  let prompt :=
    unlines (preamble_lines ++
             [ str "Table: " ++ table;
               str "Columns: " ++ cols_detail columns ]) in
  let prompt :=
    if truthy sample_data then
      prompt ++ unlines [ []; str "Sample Data (first 3 rows):"; sample_data ]
    else prompt in
  let prompt := prompt ++ unlines example_lines in
  let prompt :=
    if truthy previous_error then
      prompt ++ unlines [ []; str "PREVIOUS ATTEMPT FAILED WITH ERROR:";
                          previous_error; [];
                          str "Please fix the query to avoid this error." ]
    else prompt in
  let prompt :=
    prompt ++ unlines [ []; str "USER QUESTION: " ++ question; [];
                        str "Generate the MySQL query:" ] in
  strip prompt.

(** Reading a prompt back: its lines ([p.split("\n")]), the lines of the
    preamble (those before the [DATABASE INFORMATION:] header), and among
    them the numbered rules, i.e. the lines that begin with [\d+\. ]. *)
Fixpoint split_lines (cur s : pystr) : list pystr :=
  match s with
  | [] => [cur]
  | c :: s' =>
      if Ascii.eqb c (ascii_of_nat 10) then cur :: split_lines [] s'
      else split_lines (cur ++ [c]) s'
  end.

Definition lines (s : pystr) : list pystr := split_lines [] s.

Definition newline_free (l : pystr) : bool :=
  forallb (fun c => negb (Ascii.eqb c (ascii_of_nat 10))) l.

Definition pystr_eqb (a b : pystr) : bool :=
  Nat.eqb (length a) (length b) && startswith a b.

Fixpoint take_until (stop : pystr -> bool) (ls : list pystr) : list pystr :=
  match ls with
  | [] => []
  | l :: ls' => if stop l then [] else l :: take_until stop ls'
  end.

Definition preamble_of (prompt : pystr) : list pystr :=
  take_until (pystr_eqb (str "DATABASE INFORMATION:")) (lines prompt).

Definition is_numbered_rule (l : pystr) : bool :=
  match Re.match_at false (Re.Seq (Re.Plus true Re.digit) (Re.lits (str ". "))) l with
  | Some _ => true
  | None => false
  end.

Definition numbered_rules (prompt : pystr) : list pystr :=
  filter is_numbered_rule (preamble_of prompt).

(** ** Session state, the outside world, and the two handlers

    The handlers read and write [st.session_state] and talk to the database,
    to [sqlparse] and to the generation endpoint.  They are written in a
    small state monad that also logs, in order, every database and
    generation call and every notice shown. *)

Record credentials : Type := MkCreds {
  host : pystr;
  port : Z;
  username : pystr;
  password : pystr;
  database : pystr
}.

(** A query result: the rows of a [DataFrame]. *)
Definition dataframe := list (list pystr).

(** The JSON object of a response, each value already as its [str(...)]. *)
Definition json_obj := list (pystr * pystr).

(** The keys of [st.session_state] the two handlers use. *)
Record session : Type := MkSession {
  db_credentials : option credentials;
  selected_table : option pystr;
  generated_sql : pystr;
  last_raw_llm : pystr;
  sql_preview : pystr;
  last_error : pystr;
  last_question : pystr
}.

(** What a handler shows ([st.error], [st.success], [st.warning],
    [st.info], [st.dataframe]); only the kind and the interpolated values
    are kept. *)
Inductive notice : Type :=
| EnterQuestion
| DirectSql (n : option Z)
| SqlGenerated
| FallbackUsed
| LlmDisabled
| Blocked (reason : pystr)
| ExecutionError (err : pystr)
| RowsReturned (n : nat)
| ShowTable (df : dataframe)
| Uncaught.

Inductive event : Type :=
| GetColumns (creds : option credentials) (table : option pystr)
| GetSampleData (creds : option credentials) (table : option pystr) (limit : Z)
| LlmPost (prompt : pystr)
| RunSql (creds : option credentials) (sql : pystr)
| Display (n : notice).

(** The answers of the outside world.  [sqlparse_format] is [None] when
    [sqlparse.format] raises; [post] is [inl e] when anything inside the
    [try] block of [call_llm] raises [e], and the decoded JSON object
    otherwise; [dict_str] is [str(data)]; [query] is [inr e] when [run_sql]
    catches [e]. *)
Record externals : Type := MkExt {
  sqlparse_format : pystr -> option pystr;
  columns_of : option credentials -> option pystr -> list (pystr * pystr);
  sample_of : option credentials -> option pystr -> Z -> pystr;
  post : pystr -> pystr + json_obj;
  dict_str : json_obj -> pystr;
  query : option credentials -> pystr -> dataframe + pystr
}.

Definition M (A : Type) : Type := session -> A * session * list event.

Definition ret {A} (a : A) : M A := fun st => (a, st, []).

Definition bind {A B} (m : M A) (f : A -> M B) : M B :=
  fun st =>
    let '(a, st1, t1) := m st in
    let '(b, st2, t2) := f a st1 in
    (b, st2, t1 ++ t2).

Definition get : M session := fun st => (st, st, []).
Definition modify (f : session -> session) : M unit := fun st => (tt, f st, []).
Definition emit (e : event) : M unit := fun st => (tt, st, [e]).

Notation "x <- m ;; k" := (bind m (fun x => k))
  (at level 61, m at next level, right associativity).
Notation "m ;;; k" := (bind m (fun _ => k))
  (at level 61, right associativity).

Definition set_generated_sql (v : pystr) (st : session) : session :=
  MkSession (db_credentials st) (selected_table st) v (last_raw_llm st)
            (sql_preview st) (last_error st) (last_question st).
Definition set_last_raw_llm (v : pystr) (st : session) : session :=
  MkSession (db_credentials st) (selected_table st) (generated_sql st) v
            (sql_preview st) (last_error st) (last_question st).
Definition set_sql_preview (v : pystr) (st : session) : session :=
  MkSession (db_credentials st) (selected_table st) (generated_sql st)
            (last_raw_llm st) v (last_error st) (last_question st).
Definition set_last_error (v : pystr) (st : session) : session :=
  MkSession (db_credentials st) (selected_table st) (generated_sql st)
            (last_raw_llm st) (sql_preview st) v (last_question st).
Definition set_last_question (v : pystr) (st : session) : session :=
  MkSession (db_credentials st) (selected_table st) (generated_sql st)
            (last_raw_llm st) (sql_preview st) (last_error st) v.

(** Truth values: [if n] for [None] or an integer, [if table] for [None]
    or a string. *)
Definition int_truthy (n : option Z) : bool :=
  match n with Some v => negb (Z.eqb v 0) | None => false end.

Definition table_truthy (t : option pystr) : bool :=
  match t with Some v => truthy v | None => false end.

(** [f"{x}"] for [None] or a string, [f"{n}"] for [None] or an integer. *)
Definition format_table (t : option pystr) : pystr :=
  match t with Some v => v | None => str "None" end.

Definition format_opt_int (n : option Z) : pystr :=
  match n with Some v => format_int v | None => str "None" end.

Section Handlers.
Variable E : externals.

Definition pretty_sql (sql : pystr) : pystr :=
  match sqlparse_format E sql with
  | Some formatted => formatted
  | None => sql
  end.

Definition get_columns (creds : option credentials) (table : option pystr)
  : M (list (pystr * pystr)) :=
  emit (GetColumns creds table) ;;; ret (columns_of E creds table).

Definition get_sample_data (creds : option credentials)
           (table : option pystr) (limit : Z) : M pystr :=
  emit (GetSampleData creds table limit) ;;; ret (sample_of E creds table limit).

Definition run_sql (creds : option credentials) (sql : pystr)
  : M (option dataframe * pystr) :=
  emit (RunSql creds sql) ;;;
  match query E creds sql with
  | inl df => ret (Some df, [])
  | inr ex => ret (None, ex)
  end.

(** [for k in ("response","text","output","content"): if k in data: ...] *)
Definition response_keys : list pystr :=
  map str ["response"; "text"; "output"; "content"]%string.

Definition dict_get (data : json_obj) (k : pystr) : option pystr :=
  match find (fun kv => pystr_eqb (fst kv) k) data with
  | Some kv => Some (snd kv)
  | None => None
  end.

Fixpoint first_present (data : json_obj) (keys : list pystr) : pystr :=
  match keys with
  | [] => []
  | k :: keys' =>
      match dict_get data k with
      | Some v => strip v
      | None => first_present data keys'
      end
  end.

Definition call_llm (table : option pystr) (cols : list (pystr * pystr))
           (question : pystr) (creds : option credentials)
           (retry_error : pystr) : M (pystr * pystr) :=
  sample_data <- get_sample_data creds table 3 ;;
  let prompt :=
    build_prompt (format_table table) cols question sample_data retry_error in
  emit (LlmPost prompt) ;;;
  match post E prompt with
  | inl e => ret (str "[LLM ERROR: " ++ e ++ str "]", [])
  | inr data =>
      let raw := first_present data response_keys in
      let raw := if negb (truthy raw) then dict_str E data else raw in
      ret (raw, extract_sql raw)
  end.

(** The note stored on the fast path.  Its dash is U+2013, outside the
    8-bit alphabet; the literal holds it as its three UTF-8 bytes.  Nothing
    below depends on the content of the note. *)
Definition BYPASS_NOTE : pystr := str "Bypass LLM – top N detected.".

Definition use_sql (sql : pystr) : M unit :=
  modify (set_generated_sql (pretty_sql sql)) ;;;
  modify (set_sql_preview (pretty_sql sql)).

Definition fallback_stub (table : option pystr) : pystr :=
  str "SELECT * FROM `" ++ format_table table ++ str "` LIMIT 100;".

(** [if gen_btn: ...] with the text of the question box. *)
Definition on_generate (user_q : pystr) : M unit :=
  if negb (truthy (strip user_q)) then emit (Display EnterQuestion)
  else
    modify (set_last_question user_q) ;;;
    modify (set_last_error []) ;;;
    let n := detect_top_n user_q in
    st <- get ;;
    if int_truthy n && table_truthy (selected_table st) then
      let sql :=
        str "SELECT * FROM `" ++ format_table (selected_table st)
            ++ str "` LIMIT " ++ format_opt_int n ++ str ";" in
      use_sql sql ;;;
      modify (set_last_raw_llm BYPASS_NOTE) ;;;
      emit (Display (DirectSql n))
    else
      let creds := db_credentials st in
      cols <- get_columns creds (selected_table st) ;;
      if USE_LLM then
        r <- call_llm (selected_table st) cols user_q creds [] ;;
        let '(raw, sql) := r in
        modify (set_last_raw_llm raw) ;;;
        if truthy sql && truthy (strip sql) then
          use_sql sql ;;; emit (Display SqlGenerated)
        else
          use_sql (fallback_stub (selected_table st)) ;;;
          emit (Display FallbackUsed)
      else
        use_sql (fallback_stub (selected_table st)) ;;;
        emit (Display LlmDisabled).

(** [if run_btn: ...] with the text of the SQL editor. *)
Definition on_run (sql_editor : pystr) : M unit :=
  let sql := strip sql_editor in
  let '(ok, reason) := safe_sql_check sql in
  if negb ok then
    emit (Display (Blocked reason)) ;;; modify (set_last_error reason)
  else
    st <- get ;;
    r <- run_sql (db_credentials st) sql ;;
    let '(df, err) := r in
    if truthy err then
      emit (Display (ExecutionError err)) ;;; modify (set_last_error err)
    else
      match df with
      | Some rows =>
          emit (Display (RowsReturned (length rows))) ;;;
          modify (set_last_error []) ;;;
          emit (Display (ShowTable rows))
      | None => emit (Display Uncaught)
      end.

End Handlers.

(** What a handler run leaves behind. *)
Definition final_state {A} (m : M A) (st : session) : session := snd (fst (m st)).
Definition trace {A} (m : M A) (st : session) : list event := snd (m st).

(** The statements handed to the Query Executor and the prompts sent to the
    Generation Client during a run. *)
Definition executed (t : list event) : list pystr :=
  flat_map (fun e => match e with RunSql _ sql => [sql] | _ => [] end) t.

Definition llm_calls (t : list event) : list pystr :=
  flat_map (fun e => match e with LlmPost p => [p] | _ => [] end) t.

(** ** The retry handler and the connection error messages *)

(** What the retry handler reports: nothing when its guard fails,
    [st.success] when a new query was stored, [st.warning] otherwise. *)
Inductive retry_outcome : Type :=
| RetrySkipped
| RetryStored
| RetryNoSql.

(** [if retry_btn and st.session_state.last_error and
    st.session_state.last_question: ...] with the button pressed. *)
Definition on_retry (E : externals) : M retry_outcome :=
  st <- get ;;
  if truthy (last_error st) && truthy (last_question st) then
    let creds := db_credentials st in
    cols <- get_columns E creds (selected_table st) ;;
    r <- call_llm E (selected_table st) cols (last_question st) creds
                  (last_error st) ;;
    let '(raw, sql) := r in
    modify (set_last_raw_llm raw) ;;;
    if truthy sql && truthy (strip sql) then
      use_sql E sql ;;; ret RetryStored
    else ret RetryNoSql
  else ret RetrySkipped.

(** [mysql_error_to_message(err, host, port, db)]: [errno] is [err.errno]
    ([None] when reading it fails), [msg] is [str(err)], and [port] is the
    text of the port box. *)
Definition errno_is (errno : option Z) (code : Z) : bool :=
  match errno with Some e => Z.eqb e code | None => false end.

Definition mysql_error_to_message (errno : option Z)
           (msg host port db : pystr) : pystr :=
  if errno_is errno 1045 then
    str "Access denied (1045). Invalid username/password."
  else if errno_is errno 1049 then
    str "Unknown database '" ++ db ++ str "' (1049)."
  else if errno_is errno 2003 then
    str "Cannot connect to MySQL at " ++ host ++ str ":" ++ port
        ++ str " (2003)."
  else if errno_is errno 2005 then
    str "Unknown MySQL host '" ++ host ++ str "' (2005)."
  else msg.

(** The driver codes that have a message of their own. *)
Definition mapped_errno (e : Z) : Prop :=
  e = 1045%Z \/ e = 1049%Z \/ e = 2003%Z \/ e = 2005%Z.

(** Statement vocabulary: the text does not begin with a character of the
    class [p]. *)
Definition not_headed_by (p : ascii -> bool) (s : pystr) : bool :=
  match s with
  | [] => true
  | c :: _ => negb (p c)
  end.

(** A concrete world and session for examples: [sqlparse] raises (so
    [pretty_sql] returns its argument), the database is unreachable and the
    generation endpoint is down. *)
Definition offline : externals :=
  MkExt (fun _ => None) (fun _ _ => []) (fun _ _ _ => [])
        (fun _ => inl (str "connection refused")) (fun _ => [])
        (fun _ _ => inr (str "connection refused")).

Definition orders_session : session :=
  MkSession None (Some (str "orders")) [] [] [] [] [].

(** * Properties *)

(** ** Characters and strings *)

Module PyStrFacts.

Ltac all_chars c :=
  destruct c as [[] [] [] [] [] [] [] []]; vm_compute; try reflexivity;
  try discriminate; auto.

Lemma isspace_lower_char c : isspace (lower_char c) = isspace c.
Proof. all_chars c. Qed.

Lemma lower_app a b : lower (a ++ b) = lower a ++ lower b.
Proof. apply map_app. Qed.

Lemma forallb_isspace_lower s :
  forallb isspace (lower s) = forallb isspace s.
Proof.
  induction s as [|c s IH]; simpl; [reflexivity|].
  now rewrite isspace_lower_char, IH.
Qed.

Lemma lstrip_lower s : lstrip (lower s) = lower (lstrip s).
Proof.
  induction s as [|c s IH]; simpl; [reflexivity|].
  rewrite isspace_lower_char. destruct (isspace c); [exact IH|reflexivity].
Qed.

Lemma rstrip_lower s : rstrip (lower s) = lower (rstrip s).
Proof.
  induction s as [|c s IH]; simpl; [reflexivity|].
  rewrite IH, isspace_lower_char.
  destruct (rstrip s); simpl; [destruct (isspace c)|]; reflexivity.
Qed.

(** Lower-casing and trimming commute, so "lower-cased, trimmed" has one
    meaning. *)
Lemma strip_lower s : strip (lower s) = lower (strip s).
Proof. unfold strip. now rewrite lstrip_lower, rstrip_lower. Qed.

Lemma lstrip_blank s : forallb isspace s = true -> lstrip s = [].
Proof.
  induction s as [|c s IH]; simpl; [reflexivity|].
  destruct (isspace c); simpl; [exact IH|discriminate].
Qed.

Lemma rstrip_blank s : forallb isspace s = true -> rstrip s = [].
Proof.
  induction s as [|c s IH]; simpl; [reflexivity|].
  destruct (isspace c) eqn:Hc; simpl; [|discriminate].
  intros H. now rewrite (IH H).
Qed.

Lemma rstrip_nil_blank s : rstrip s = [] -> forallb isspace s = true.
Proof.
  induction s as [|c s IH]; simpl; [reflexivity|].
  destruct (rstrip s) eqn:Hr; [|discriminate].
  destruct (isspace c); [intros _; now apply IH|discriminate].
Qed.

Lemma strip_blank s : forallb isspace s = true -> strip s = [].
Proof. intros H. unfold strip. now rewrite (lstrip_blank _ H). Qed.

Lemma lstrip_suffix s : exists l, s = l ++ lstrip s /\ forallb isspace l = true.
Proof.
  induction s as [|c s [l [IH1 IH2]]]; simpl.
  - now exists [].
  - destruct (isspace c) eqn:Hc.
    + exists (c :: l). simpl. rewrite Hc, IH2. now rewrite <- IH1.
    + now exists [].
Qed.

Lemma strip_nil_blank s : strip s = [] -> forallb isspace s = true.
Proof.
  unfold strip. intros H. apply rstrip_nil_blank in H.
  destruct (lstrip_suffix s) as [l [E Hl]]. rewrite E, forallb_app, Hl, H.
  reflexivity.
Qed.

Lemma lstrip_head c s : isspace c = false -> lstrip (c :: s) = c :: s.
Proof. intros H. simpl. now rewrite H. Qed.

(** [rstrip] on a concatenation: only the right part is touched unless it
    is blank. *)
Lemma rstrip_app a b :
  rstrip (a ++ b) = match rstrip b with [] => rstrip a | r => a ++ r end.
Proof.
  induction a as [|c a IH]; simpl.
  - destruct (rstrip b); reflexivity.
  - rewrite IH. destruct (rstrip b); [reflexivity|].
    destruct a; reflexivity.
Qed.

Lemma rstrip_snoc a c : isspace c = false -> rstrip (a ++ [c]) = a ++ [c].
Proof. intros H. rewrite rstrip_app. simpl. now rewrite H. Qed.

Lemma rstrip_snoc_blank a c w :
  isspace c = false -> forallb isspace w = true ->
  rstrip (a ++ c :: w) = a ++ [c].
Proof.
  intros Hc Hw. rewrite rstrip_app. simpl.
  now rewrite (rstrip_blank _ Hw), Hc.
Qed.

(** *** [startswith], [endswith], [in] *)

Lemma startswith_app p t : startswith (p ++ t) p = true.
Proof.
  induction p as [|c p IH]; simpl; [reflexivity|].
  now rewrite Ascii.eqb_refl, IH.
Qed.

Lemma startswith_split s p : startswith s p = true -> exists t, s = p ++ t.
Proof.
  revert s. induction p as [|c p IH]; intros s; simpl.
  - intros _. now exists s.
  - destruct s as [|x s]; [discriminate|].
    intros H. apply andb_true_iff in H as [H1 H2].
    apply Ascii.eqb_eq in H1. subst x.
    destruct (IH _ H2) as [t ->]. now exists t.
Qed.

Lemma startswith_nil_l p : startswith [] p = true -> p = [].
Proof. destruct p; simpl; [reflexivity|discriminate]. Qed.

Lemma endswith_app t p : endswith (t ++ p) p = true.
Proof. unfold endswith. rewrite rev_app_distr. apply startswith_app. Qed.

Lemma endswith_split s p : endswith s p = true -> exists t, s = t ++ p.
Proof.
  unfold endswith. intros H. apply startswith_split in H as [t H].
  exists (rev t). rewrite <- (rev_involutive s), H, rev_app_distr.
  now rewrite rev_involutive.
Qed.

Lemma contains_startswith w s : startswith s w = true -> contains w s = true.
Proof. intros H. destruct s; simpl; rewrite H; reflexivity. Qed.

Lemma contains_app w p q : contains w (p ++ w ++ q) = true.
Proof.
  induction p as [|c p IH]; simpl.
  - apply contains_startswith, startswith_app.
  - rewrite IH. apply orb_true_r.
Qed.

Lemma contains_split w s :
  contains w s = true -> exists p q, s = p ++ w ++ q.
Proof.
  induction s as [|c s IH]; simpl.
  - rewrite orb_false_r. intros H. apply startswith_nil_l in H. subst.
    now exists [], [].
  - intros H. apply orb_true_iff in H as [H|H].
    + apply startswith_split in H as [t H]. now exists [], t.
    + destruct (IH H) as [p [q ->]]. now exists (c :: p), q.
Qed.

Lemma contains_nil w : w <> [] -> contains w [] = false.
Proof. destruct w; simpl; congruence. Qed.

Lemma contains_cons w c s : contains w s = true -> contains w (c :: s) = true.
Proof. intros H. simpl. rewrite H. apply orb_true_r. Qed.

Lemma contains_lstrip w s :
  solid w -> contains w s = true -> contains w (lstrip s) = true.
Proof.
  intros [Hn Hw]. induction s as [|c s IH]; simpl; [auto|].
  destruct (isspace c) eqn:Hc; [|auto].
  intros H. apply orb_true_iff in H as [H|H]; [|auto].
  destruct w as [|a w]; [congruence|]. simpl in H, Hw.
  apply andb_true_iff in H as [H _]. apply Ascii.eqb_eq in H. subst a.
  rewrite Hc in Hw. discriminate.
Qed.

Lemma startswith_rstrip w s :
  solid w -> startswith s w = true -> startswith (rstrip s) w = true.
Proof.
  intros [Hn Hw]. revert s Hn Hw.
  induction w as [|a w IH]; intros s Hn Hw; [congruence|].
  destruct s as [|x s]; simpl; [discriminate|].
  intros H. apply andb_true_iff in H as [H1 H2].
  simpl in Hw. apply andb_true_iff in Hw as [Ha Hw].
  apply Ascii.eqb_eq in H1. subst x.
  destruct w as [|b w].
  - destruct (rstrip s); [|simpl; now rewrite Ascii.eqb_refl].
    apply negb_true_iff in Ha. rewrite Ha. simpl. now rewrite Ascii.eqb_refl.
  - assert (Hs : startswith (rstrip s) (b :: w) = true)
      by (apply IH; [discriminate|assumption|assumption]).
    destruct (rstrip s); [discriminate|].
    simpl. rewrite Ascii.eqb_refl. exact Hs.
Qed.

Lemma contains_rstrip w s :
  solid w -> contains w s = true -> contains w (rstrip s) = true.
Proof.
  intros Hw. induction s as [|c s IH]; [auto|].
  intros H. simpl in H. apply orb_true_iff in H as [H|H].
  - apply (startswith_rstrip _ _ Hw) in H. now apply contains_startswith.
  - specialize (IH H). simpl.
    destruct (rstrip s) eqn:E.
    + rewrite contains_nil in IH; [discriminate|apply Hw].
    + now apply contains_cons.
Qed.

Lemma contains_strip w s :
  solid w -> contains w s = true -> contains w (strip s) = true.
Proof.
  intros Hw H. unfold strip. now apply contains_rstrip, contains_lstrip.
Qed.

End PyStrFacts.
Import PyStrFacts.

(** ** The safety gate *)

Module Gate.

Lemma forbidden_solid w : In w forbidden -> solid w.
Proof.
  unfold forbidden. simpl.
  intros H; repeat (destruct H as [<-|H]; [split; [discriminate|reflexivity]|]).
  destruct H.
Qed.

(** The three checks, in the order in which they run. *)
Lemma gate_cases sql :
  let s := strip (lower sql) in
  (strip sql = [] /\ safe_sql_check sql = (false, str "SQL empty."))
  \/ (strip sql <> [] /\ startswith s (str "select") = false
      /\ safe_sql_check sql = (false, str "Only SELECT allowed."))
  \/ (strip sql <> [] /\ startswith s (str "select") = true
      /\ exists w, first_forbidden s = Some w
           /\ safe_sql_check sql
              = (false, str "Forbidden keyword '" ++ w ++ str "'."))
  \/ (strip sql <> [] /\ startswith s (str "select") = true
      /\ first_forbidden s = None /\ safe_sql_check sql = (true, [])).
Proof.
  intros s. remember (safe_sql_check sql) as R eqn:HR.
  unfold safe_sql_check in HR. fold s in HR.
  destruct (strip sql) as [|a p] eqn:Hs.
  - left. split; [reflexivity|exact HR].
  - right. destruct (startswith s (str "select")) eqn:Hsel.
    + right. destruct (first_forbidden s) as [w|] eqn:Hf.
      * left. split; [discriminate|]. split; [reflexivity|].
        exists w. split; [reflexivity|exact HR].
      * right. split; [discriminate|]. split; [reflexivity|].
        split; [reflexivity|exact HR].
    + left. split; [discriminate|]. split; [reflexivity|exact HR].
Qed.

Lemma find_first {A} (f : A -> bool) before x after :
  f x = true -> (forall u, In u before -> f u = false) ->
  find f (before ++ x :: after) = Some x.
Proof.
  intros Hx. induction before as [|b before IH]; simpl; intros Hb.
  - now rewrite Hx.
  - rewrite (Hb b (or_introl eq_refl)). apply IH. intros u Hu. apply Hb. now right.
Qed.

Lemma nonblank_of_contains w sql :
  solid w -> contains w (lower sql) = true -> strip sql <> [].
Proof.
  intros Hw H E. apply strip_nil_blank in E.
  rewrite <- forallb_isspace_lower in E. apply strip_blank in E.
  apply (contains_strip _ _ Hw) in H. rewrite E in H.
  rewrite contains_nil in H; [discriminate|apply Hw].
Qed.

(** What the run handler hands to the executor: the trimmed editor text,
    and only when the gate accepts it. *)
Lemma on_run_executed E editor st :
  executed (trace (on_run E editor) st)
  = if fst (safe_sql_check (strip editor)) then [strip editor] else [].
Proof.
  unfold on_run, trace.
  destruct (safe_sql_check (strip editor)) as [ok reason].
  destruct ok; simpl; [|reflexivity].
  unfold run_sql, bind, emit, get, ret, modify; simpl.
  destruct (query E (db_credentials st) (strip editor)) as [df|ex]; simpl.
  - reflexivity.
  - destruct (truthy ex); reflexivity.
Qed.

End Gate.

(** C1.  Whatever the gate accepts is, once lower-cased and trimmed,
    non-empty, starts with [select] and contains none of the nine forbidden
    keywords; and every statement the run handler passes to the executor is
    one the gate accepted, so it has these properties too. *)
Theorem gate_accepts_only_clean_select :
  (forall sql, fst (safe_sql_check sql) = true ->
     let s := strip (lower sql) in
     s <> [] /\ startswith s (str "select") = true
     /\ forall w, In w forbidden -> contains w s = false)
  /\ (forall E st editor stmt,
        In stmt (executed (trace (on_run E editor) st)) ->
        stmt = strip editor /\ fst (safe_sql_check stmt) = true
        /\ forall w, In w forbidden -> contains w (strip (lower stmt)) = false).
Proof.
  assert (G : forall sql, fst (safe_sql_check sql) = true ->
     let s := strip (lower sql) in
     s <> [] /\ startswith s (str "select") = true
     /\ forall w, In w forbidden -> contains w s = false).
  { intros sql H s. subst s.
    destruct (Gate.gate_cases sql) as [[_ E]|[[_ [_ E]]|[[_ [_ [w [_ E]]]]|[_ [Hsel [Hf _]]]]]];
      try (rewrite E in H; discriminate).
    cbv zeta in *. repeat split.
    - intros E. rewrite E in Hsel. discriminate.
    - exact Hsel.
    - intros w Hw. exact (find_none _ _ Hf w Hw). }
  split; [exact G|].
  intros E st editor stmt H. rewrite Gate.on_run_executed in H.
  destruct (fst (safe_sql_check (strip editor))) eqn:Hok; [|destruct H].
  destruct H as [<-|[]]. repeat split; [exact Hok|]. apply (G _ Hok).
Qed.

(** C2, as amended.  A string in which a forbidden keyword [W] occurs
    (case-insensitively) is always rejected.  The reason is
    ["Only SELECT allowed."] when the string does not start with [select];
    otherwise it names the first listed keyword that occurs, which is [W]
    when no keyword listed before [W] occurs. *)
Theorem forbidden_keyword_rejected (W sql : pystr) :
  In W forbidden -> contains W (lower sql) = true ->
  let s := strip (lower sql) in
  fst (safe_sql_check sql) = false
  /\ (startswith s (str "select") = false ->
      snd (safe_sql_check sql) = str "Only SELECT allowed.")
  /\ (startswith s (str "select") = true ->
      exists V, first_forbidden s = Some V /\ In V forbidden
        /\ snd (safe_sql_check sql) = str "Forbidden keyword '" ++ V ++ str "'."
        /\ contains V (snd (safe_sql_check sql)) = true
        /\ forall before after,
             forbidden = before ++ W :: after ->
             (forall U, In U before -> contains U s = false) -> V = W).
Proof.
  intros HW Hc s.
  pose proof (Gate.forbidden_solid _ HW) as Hsolid.
  pose proof (Gate.nonblank_of_contains _ _ Hsolid Hc) as Hnb.
  assert (Hs : contains W s = true) by (apply contains_strip; assumption).
  subst s.
  destruct (Gate.gate_cases sql) as [[E _]|[[_ [Hsel E]]|[[_ [Hsel [V [Hf E]]]]|[_ [_ [Hf _]]]]]];
    cbv zeta in *.
  - contradiction.
  - rewrite E. split; [reflexivity|]. split; [reflexivity|congruence].
  - rewrite E. split; [reflexivity|]. split; [congruence|]. intros _.
    exists V. destruct (find_some _ _ Hf) as [HV _].
    split; [assumption|]. split; [assumption|]. split; [reflexivity|].
    split.
    + apply contains_app.
    + intros before after Hl Hb. unfold first_forbidden in Hf.
      rewrite Hl, (Gate.find_first (fun w => contains w (strip (lower sql)))
                                   before W after Hs Hb) in Hf.
      congruence.
  - rewrite (find_none _ _ Hf W HW) in Hs. discriminate.
Qed.

(** C3, as amended.  A string that is not blank and whose lower-cased,
    trimmed form does not start with [select] is rejected with exactly
    ["Only SELECT allowed."]. *)
Theorem non_select_rejected (sql : pystr) :
  strip sql <> [] ->
  startswith (strip (lower sql)) (str "select") = false ->
  safe_sql_check sql = (false, str "Only SELECT allowed.").
Proof.
  intros Hnb Hsel.
  destruct (Gate.gate_cases sql) as [[E _]|[[_ [_ E]]|[[_ [H _]]|[_ [H _]]]]];
    try contradiction; try congruence.
Qed.

(** C9.  A string that is empty or consists of white space only is rejected
    with exactly ["SQL empty."], never with one of the other two reasons. *)
Theorem blank_sql_rejected (sql : pystr) :
  forallb isspace sql = true ->
  safe_sql_check sql = (false, str "SQL empty.")
  /\ snd (safe_sql_check sql) <> str "Only SELECT allowed."
  /\ forall w, snd (safe_sql_check sql) <> str "Forbidden keyword '" ++ w ++ str "'.".
Proof.
  intros H. apply strip_blank in H.
  unfold safe_sql_check. rewrite H. simpl.
  repeat split; [discriminate|]. intros w. discriminate.
Qed.

(** ** The matcher against the language of a pattern *)

Module ReFacts.
Import Re.

Section Soundness.
Variable A : Type.
Variable ic : bool.

Lemma star_greedy_sound p s caps (k : cont A) x :
  star_greedy p s caps k = Some x ->
  exists m rest, s = m ++ rest /\ forallb p m = true /\ k rest caps = Some x.
Proof.
  induction s as [|c s IH]; simpl; intros H.
  - exists [], []. auto.
  - destruct (p c) eqn:Hp.
    + destruct (star_greedy p s caps k) as [y|] eqn:Hg.
      * destruct (IH H) as [m [rest [E [Hm Hk]]]].
        exists (c :: m), rest. simpl. rewrite Hp, Hm, E. auto.
      * exists [], (c :: s). auto.
    + exists [], (c :: s). auto.
Qed.

Lemma star_lazy_sound p s caps (k : cont A) x :
  star_lazy p s caps k = Some x ->
  exists m rest, s = m ++ rest /\ forallb p m = true /\ k rest caps = Some x.
Proof.
  induction s as [|c s IH]; simpl; intros H.
  - destruct (k [] caps) eqn:Hk; [|discriminate]. exists [], [].
    split; [reflexivity|split; [reflexivity|congruence]].
  - destruct (k (c :: s) caps) eqn:Hk.
    + exists [], (c :: s).
      split; [reflexivity|split; [reflexivity|congruence]].
    + destruct (p c) eqn:Hp; [|discriminate].
      destruct (IH H) as [m [rest [E [Hm Hk']]]].
      exists (c :: m), rest. simpl. rewrite Hp, Hm, E. auto.
Qed.

(** Whatever the matcher returns comes from a split of the input into a
    text of the pattern's language and a rest the continuation accepted. *)
Lemma rx_match_sound r : forall s caps (k : cont A) x,
  rx_match ic r s caps k = Some x ->
  exists m rest caps', s = m ++ rest /\ lang ic r m /\ k rest caps' = Some x.
Proof.
  induction r as [|c|p|r1 IH1 r2 IH2|r1 IH1 r2 IH2|g p|i r IH];
    intros s caps k x H; simpl in H.
  - exists [], s, caps. repeat split; [constructor|assumption].
  - destruct s as [|y s]; [discriminate|].
    destruct (chr_match ic c y) eqn:Hc; [|discriminate].
    exists [y], s, caps. repeat split; [now constructor|assumption].
  - destruct s as [|y s]; [discriminate|].
    destruct (p y) eqn:Hp; [|discriminate].
    exists [y], s, caps. repeat split; [now constructor|assumption].
  - apply IH1 in H as [m1 [rest1 [caps1 [E1 [L1 H]]]]].
    apply IH2 in H as [m2 [rest [caps2 [E2 [L2 H]]]]].
    exists (m1 ++ m2), rest, caps2. subst. rewrite <- app_assoc.
    repeat split; [now constructor|assumption].
  - destruct (rx_match ic r1 s caps k) as [y|] eqn:H1.
    + apply IH1 in H1 as [m [rest [caps' [E [L Hk]]]]].
      exists m, rest, caps'. repeat split;
        [assumption|now apply L_AltL|congruence].
    + apply IH2 in H as [m [rest [caps' [E [L Hk]]]]].
      exists m, rest, caps'. repeat split;
        [assumption|now apply L_AltR|assumption].
  - destruct g.
    + apply star_greedy_sound in H as [m [rest [E [Hm Hk]]]].
      exists m, rest, caps. repeat split; [assumption|now constructor|assumption].
    + apply star_lazy_sound in H as [m [rest [E [Hm Hk]]]].
      exists m, rest, caps. repeat split; [assumption|now constructor|assumption].
  - apply IH in H as [m [rest [caps' [E [L Hk]]]]].
    exists m, rest, ((i, firstn (length s - length rest) s) :: caps').
    repeat split; [assumption|now constructor|assumption].
Qed.

(** The text recorded for a group is the text its body matched. *)
Lemma rx_match_grp_sound i r s caps (k : cont A) x :
  rx_match ic (Grp i r) s caps k = Some x ->
  exists m rest caps',
    s = m ++ rest /\ lang ic r m /\ k rest ((i, m) :: caps') = Some x.
Proof.
  simpl. intros H.
  apply rx_match_sound in H as [m [rest [caps' [E [L Hk]]]]].
  exists m, rest, caps'. repeat split; try assumption.
  rewrite E, length_app, Nat.add_sub, firstn_app, Nat.sub_diag in Hk.
  simpl in Hk. now rewrite firstn_all, app_nil_r in Hk.
Qed.

Lemma star_greedy_skip p s caps (k : cont A) :
  k s caps <> None -> star_greedy p s caps k <> None.
Proof.
  destruct s as [|c s]; simpl; [auto|].
  destruct (p c); [|auto].
  destruct (star_greedy p s caps k); [discriminate|auto].
Qed.

Lemma star_greedy_complete p m : forall rest caps (k : cont A),
  forallb p m = true -> k rest caps <> None ->
  star_greedy p (m ++ rest) caps k <> None.
Proof.
  induction m as [|c m IH]; intros rest caps k Hm Hk; simpl.
  - now apply star_greedy_skip.
  - simpl in Hm. apply andb_true_iff in Hm as [Hc Hm]. rewrite Hc.
    specialize (IH rest caps k Hm Hk).
    destruct (star_greedy p (m ++ rest) caps k); [discriminate|contradiction].
Qed.

Lemma star_lazy_skip p s caps (k : cont A) :
  k s caps <> None -> star_lazy p s caps k <> None.
Proof.
  destruct s as [|c s]; simpl; intros H.
  - destruct (k [] caps); [discriminate|contradiction].
  - destruct (k (c :: s) caps); [discriminate|contradiction].
Qed.

Lemma star_lazy_complete p m : forall rest caps (k : cont A),
  forallb p m = true -> k rest caps <> None ->
  star_lazy p (m ++ rest) caps k <> None.
Proof.
  induction m as [|c m IH]; intros rest caps k Hm Hk.
  - now apply star_lazy_skip.
  - simpl in Hm. apply andb_true_iff in Hm as [Hc Hm]. simpl.
    destruct (k (c :: m ++ rest) caps); [discriminate|].
    rewrite Hc. now apply IH.
Qed.

(** If some split of the input puts a text of the language in front of a
    rest the continuation accepts, the matcher finds a match. *)
Lemma rx_match_complete r m :
  lang ic r m ->
  forall rest caps (k : cont A),
    (forall caps', k rest caps' <> None) ->
    rx_match ic r (m ++ rest) caps k <> None.
Proof.
  induction 1 as [|c x Hc|p x Hp|r1 r2 m1 m2 _ IH1 _ IH2|r1 r2 m _ IH
                  |r1 r2 m _ IH|g p m Hm|i r m _ IH];
    intros rest caps k Hk; simpl.
  - apply Hk.
  - rewrite Hc. apply Hk.
  - rewrite Hp. apply Hk.
  - rewrite <- app_assoc. apply IH1. intros caps'. now apply IH2.
  - specialize (IH rest caps k Hk).
    destruct (rx_match ic r1 (m ++ rest) caps k); [discriminate|contradiction].
  - destruct (rx_match ic r1 (m ++ rest) caps k); [discriminate|].
    now apply IH.
  - destruct g; [apply star_greedy_complete|apply star_lazy_complete]; auto.
  - apply IH. intros caps'. apply Hk.
Qed.
End Soundness.

Lemma firstn_matched (m rest : pystr) :
  firstn (length (m ++ rest) - length rest) (m ++ rest) = m.
Proof.
  rewrite length_app, Nat.add_sub, firstn_app, Nat.sub_diag. simpl.
  now rewrite firstn_all, app_nil_r.
Qed.

Lemma match_at_sound ic r s m rest caps :
  match_at ic r s = Some (m, rest, caps) -> s = m ++ rest /\ lang ic r m.
Proof.
  unfold match_at. intros H.
  apply rx_match_sound in H as [m' [rest' [caps' [E [L Hk]]]]].
  injection Hk as <- <- <-. subst s. rewrite firstn_matched. auto.
Qed.

Lemma match_at_group ic i r s m rest caps :
  match_at ic (Grp i r) s = Some (m, rest, caps) ->
  exists caps', caps = (i, m) :: caps'.
Proof.
  unfold match_at. intros H.
  apply rx_match_grp_sound in H as [m' [rest' [caps' [E [L Hk]]]]].
  injection Hk as <- <- <-. subst s. rewrite firstn_matched. now exists caps'.
Qed.

Lemma match_at_complete ic r m rest :
  lang ic r m -> match_at ic r (m ++ rest) <> None.
Proof.
  intros L. unfold match_at. apply rx_match_complete; [assumption|].
  intros caps'. discriminate.
Qed.

(** [re.search] returns a match of the pattern inside the text... *)
Lemma search_from_sound ic r : forall s pre mo,
  search_from ic r pre s = Some mo ->
  pre ++ s = m_pre mo ++ m_text mo ++ m_post mo
  /\ lang ic r (m_text mo)
  /\ match_at ic r (m_text mo ++ m_post mo)
     = Some (m_text mo, m_post mo, m_caps mo).
Proof.
  induction s as [|c s IH]; intros pre mo; simpl.
  - destruct (match_at ic r []) as [[[m rest] caps]|] eqn:H; [|discriminate].
    intros [= <-]. simpl. destruct (match_at_sound _ _ _ _ _ _ H) as [E L].
    rewrite <- E. auto.
  - destruct (match_at ic r (c :: s)) as [[[m rest] caps]|] eqn:H.
    + intros [= <-]. simpl. destruct (match_at_sound _ _ _ _ _ _ H) as [E L].
      rewrite <- E. auto.
    + intros H'. apply IH in H'. rewrite <- app_assoc in H'. exact H'.
Qed.

(** ... and [None] only when no position of the text has a match. *)
Lemma search_from_none ic r : forall s pre,
  search_from ic r pre s = None ->
  forall a b, s = a ++ b -> match_at ic r b = None.
Proof.
  induction s as [|c s IH]; intros pre; simpl.
  - destruct (match_at ic r []) as [[[m rest] caps]|] eqn:H; [discriminate|].
    intros _ a b E. symmetry in E. apply app_eq_nil in E as [_ ->]. exact H.
  - destruct (match_at ic r (c :: s)) as [[[m rest] caps]|] eqn:H; [discriminate|].
    intros H' a b E. destruct a as [|x a]; simpl in E.
    + now subst b.
    + injection E as _ E. exact (IH _ H' a b E).
Qed.

Lemma search_sound ic r s mo :
  search ic r s = Some mo ->
  s = m_pre mo ++ m_text mo ++ m_post mo /\ lang ic r (m_text mo).
Proof.
  intros H. apply search_from_sound in H as [E [L _]]. auto.
Qed.

Lemma search_group ic i r s mo :
  search ic (Grp i r) s = Some mo -> group mo i = m_text mo.
Proof.
  intros H. apply search_from_sound in H as [_ [_ H]].
  apply match_at_group in H as [caps' E].
  unfold group. rewrite E. simpl. rewrite Nat.eqb_refl. simpl.
  now destruct i.
Qed.

(** The leftmost position wins: when the text itself starts with a match,
    the match returned starts at position 0. *)
Lemma search_at_start ic r m rest :
  lang ic r m ->
  exists mo, search ic r (m ++ rest) = Some mo /\ m_pre mo = []
             /\ m ++ rest = m_text mo ++ m_post mo /\ lang ic r (m_text mo).
Proof.
  intros L. unfold search.
  pose proof (match_at_complete ic r m rest L) as H.
  destruct (match_at ic r (m ++ rest)) as [[[m' rest'] caps]|] eqn:E;
    [|contradiction].
  exists (MkMatch [] m' rest' caps).
  destruct (match_at_sound _ _ _ _ _ _ E) as [E' L'].
  destruct (m ++ rest); simpl; rewrite E; simpl; auto.
Qed.

(** *** Literal words *)

Lemma lang_lits_cs w : forall m, lang false (lits w) m <-> m = w.
Proof.
  induction w as [|c w IH]; intros m; simpl; split.
  - inversion 1. reflexivity.
  - intros ->. constructor.
  - inversion 1 as [| | |? ? m1 m2 L1 L2| | | |]; subst.
    inversion L1 as [|? x Hc| | | | | |]; subst. simpl in Hc.
    apply Ascii.eqb_eq in Hc. subst x. apply IH in L2. now subst.
  - intros ->. change (c :: w) with ([c] ++ w). constructor.
    + constructor. simpl. apply Ascii.eqb_refl.
    + now apply IH.
Qed.

Lemma lang_lits_ic w : forall m, lang true (lits w) m <-> lower m = lower w.
Proof.
  induction w as [|c w IH]; intros m; simpl; split.
  - inversion 1. reflexivity.
  - destruct m; [constructor|discriminate].
  - inversion 1 as [| | |? ? m1 m2 L1 L2| | | |]; subst.
    inversion L1 as [|? x Hc| | | | | |]; subst. simpl in Hc.
    apply Ascii.eqb_eq in Hc. apply IH in L2. simpl. congruence.
  - destruct m as [|x m]; [discriminate|]. simpl. intros [= Hx Hm].
    change (x :: m) with ([x] ++ m). constructor.
    + constructor. simpl. rewrite Hx. apply Ascii.eqb_refl.
    + now apply IH.
Qed.

End ReFacts.

(** ** The SQL extractor *)

Module Extract.
Import Re ReFacts.

Lemma semicolon_only x : chr_match true ";" x = true -> x = ";"%char.
Proof.
  unfold chr_match. intros H. apply Ascii.eqb_eq in H. revert H.
  destruct x as [[] [] [] [] [] [] [] []]; vm_compute; intros H;
    try reflexivity; discriminate H.
Qed.

Lemma any_all m : forallb any m = true.
Proof.
  induction m as [|c m IH]; simpl; [reflexivity|].
  rewrite IH. unfold any. now rewrite orb_negb_r.
Qed.

(** Both search patterns are [SELECT], in any case, followed by a tail. *)
Lemma lang_word_then i w X m :
  lang true (Grp i (Seq (lits w) X)) m ->
  exists sel t, m = sel ++ t /\ lower sel = lower w /\ lang true X t.
Proof.
  inversion 1 as [| | | | | | |? ? ? L]; subst.
  inversion L as [| | |? ? m1 m2 L1 L2| | | |]; subst.
  apply lang_lits_ic in L1. exists m1, m2. auto.
Qed.

Lemma lang_select i X m :
  lang true (Grp i (Seq (lits (str "SELECT")) X)) m ->
  exists sel t, m = sel ++ t /\ lower sel = str "select" /\ lang true X t.
Proof. apply lang_word_then. Qed.

Lemma lang_stmt_tail t :
  lang true (Seq (Star false any) (Lit ";")) t -> exists body, t = body ++ str ";".
Proof.
  inversion 1 as [| | |? ? m1 m2 L1 L2| | | |]; subst.
  inversion L2 as [|? x Hc| | | | | |]; subst.
  apply semicolon_only in Hc. subst x. now exists m1.
Qed.

Lemma select_head sel :
  lower sel = str "select" ->
  exists c0 sel', sel = c0 :: sel' /\ isspace c0 = false
                  /\ forallb (fun c => negb (isspace c)) sel = true.
Proof.
  intros H.
  assert (F : forallb (fun c => negb (isspace c)) sel = true).
  { assert (G : forallb (fun c => negb (isspace c)) (lower sel) = true)
      by (rewrite H; reflexivity).
    clear H. induction sel as [|c sel IH]; [reflexivity|].
    simpl in *. rewrite isspace_lower_char in G.
    apply andb_true_iff in G as [G1 G2]. now rewrite G1, IH. }
  destruct sel as [|c0 sel']; [discriminate|].
  exists c0, sel'. repeat split; [|exact F].
  simpl in F. apply andb_true_iff in F as [F _]. now apply negb_true_iff.
Qed.

Lemma rstrip_solid s :
  forallb (fun c => negb (isspace c)) s = true -> rstrip s = s.
Proof.
  induction s as [|c s IH]; simpl; [reflexivity|].
  intros H. apply andb_true_iff in H as [Hc Hs]. rewrite (IH Hs).
  apply negb_true_iff in Hc. rewrite Hc. now destruct s.
Qed.

Lemma rstrip_idem s : rstrip (rstrip s) = rstrip s.
Proof.
  induction s as [|c s IH]; simpl; [reflexivity|].
  destruct (rstrip s) as [|y r] eqn:E.
  - destruct (isspace c) eqn:Hc; simpl; [reflexivity|now rewrite Hc].
  - change (rstrip (c :: y :: r)) with
      (match rstrip (y :: r) with
       | [] => if isspace c then [] else [c]
       | r' => c :: r'
       end).
    now rewrite IH.
Qed.

(** Trimming a text that begins with [SELECT] only touches its end. *)
Lemma rstrip_select sel t :
  lower sel = str "select" -> rstrip (sel ++ t) = sel ++ rstrip t.
Proof.
  intros H. destruct (select_head _ H) as [c0 [sel' [E [Hc F]]]].
  rewrite rstrip_app, (rstrip_solid _ F).
  destruct (rstrip t); [now rewrite app_nil_r|reflexivity].
Qed.

Lemma strip_select sel t :
  lower sel = str "select" -> strip (sel ++ t) = sel ++ rstrip t.
Proof.
  intros H. destruct (select_head _ H) as [c0 [sel' [E [Hc F]]]].
  unfold strip. rewrite E at 1. simpl app. rewrite (lstrip_head _ _ Hc).
  change (c0 :: sel' ++ t) with ((c0 :: sel') ++ t). rewrite <- E.
  now apply rstrip_select.
Qed.

Lemma startswith_select sel t :
  lower sel = str "select" -> startswith (lower (sel ++ t)) (str "select") = true.
Proof. intros H. rewrite lower_app, H. apply startswith_app. Qed.

Lemma select_prefix c :
  startswith (lower c) (str "select") = true ->
  exists sel t, c = sel ++ t /\ lower sel = str "select".
Proof.
  intros H. apply startswith_split in H as [t H].
  unfold lower in H. apply map_eq_app in H as [sel [t' [E [H1 H2]]]].
  now exists sel, t'.
Qed.

(** A well-formed text is left alone by [strip]. *)
Lemma strip_well_formed c : well_formed c -> strip c = c.
Proof.
  intros [Hs He]. apply select_prefix in Hs as [sel [t [E Hsel]]].
  apply endswith_split in He as [body Eb].
  rewrite E, (strip_select _ _ Hsel). f_equal.
  destruct t as [|x t]; [reflexivity|].
  assert (T : exists t', x :: t = t' ++ str ";").
  { rewrite E in Eb. clear E.
    destruct (exists_last (l := x :: t)) as [t' [y Et]]; [discriminate|].
    rewrite Et in Eb. rewrite app_assoc in Eb.
    apply app_inj_tail in Eb as [_ ->]. now exists t'. }
  destruct T as [t' ->]. now apply rstrip_snoc.
Qed.

(** The last two statements of [extract_sql], on a candidate that begins
    with [SELECT] and carries no white space at its end. *)
Lemma finish_candidate c :
  startswith (lower c) (str "select") = true -> rstrip c = c ->
  let c1 := if truthy c && negb (endswith c (str ";"))
            then c ++ str ";" else c in
  (if truthy c1 then strip c1 else []) = c1 /\ well_formed c1.
Proof.
  intros Hs Hr c1.
  assert (W : well_formed c1).
  { subst c1. destruct (endswith c (str ";")) eqn:He.
    - rewrite andb_false_r. now split.
    - destruct c as [|x c]; [discriminate|]. simpl truthy. simpl andb.
      split; [|apply endswith_app].
      apply select_prefix in Hs as [sel [t [E Hsel]]].
      rewrite E, <- app_assoc. now apply startswith_select. }
  split; [|exact W].
  rewrite (strip_well_formed _ W).
  destruct c1; [destruct W; discriminate|reflexivity].
Qed.

Lemma extract_sql_shape raw : extract_sql raw = [] \/ well_formed (extract_sql raw).
Proof.
  unfold extract_sql.
  destruct (search true SELECT_STMT (strip_fences raw)) as [mo|] eqn:H1.
  - right. rewrite (search_group _ _ _ _ _ H1).
    apply search_sound in H1 as [_ L].
    apply lang_select in L as [sel [t [E [Hsel Lt]]]].
    apply lang_stmt_tail in Lt as [body ->].
    assert (W : well_formed (m_text mo)).
    { rewrite E. split; [now apply startswith_select|].
      rewrite app_assoc. apply endswith_app. }
    rewrite (strip_well_formed _ W).
    destruct W as [Ws We].
    destruct (finish_candidate (m_text mo) Ws) as [F1 F2].
    + rewrite E, app_assoc. now apply rstrip_snoc.
    + cbv zeta in F1, F2. rewrite F1. exact F2.
  - destruct (search true SELECT_REST (strip_fences raw)) as [mo|] eqn:H2.
    + right. rewrite (search_group _ _ _ _ _ H2).
      apply search_sound in H2 as [_ L].
      apply lang_select in L as [sel [t [E [Hsel _]]]].
      rewrite E, (strip_select _ _ Hsel).
      destruct (finish_candidate (sel ++ rstrip t)) as [F1 F2].
      * now apply startswith_select.
      * now rewrite (rstrip_select _ _ Hsel), rstrip_idem.
      * cbv zeta in F1, F2. rewrite F1. exact F2.
    + left. reflexivity.
Qed.

(** A search for either pattern succeeds only on a text in which
    [SELECT] occurs, in some letter case. *)
Lemma search_needs_select i X s mo :
  search true (Grp i (Seq (lits (str "SELECT")) X)) s = Some mo ->
  contains (str "select") (lower s) = true.
Proof.
  intros H. apply search_sound in H as [E L].
  apply lang_select in L as [sel [t [Em [Hsel _]]]].
  rewrite E, Em, !lower_app, Hsel, <- app_assoc. apply contains_app.
Qed.

Lemma extract_sql_no_select raw :
  contains (str "select") (lower (strip_fences raw)) = false ->
  extract_sql raw = [].
Proof.
  intros H. unfold extract_sql.
  destruct (search true SELECT_STMT (strip_fences raw)) as [mo|] eqn:H1.
  { apply search_needs_select in H1. congruence. }
  destruct (search true SELECT_REST (strip_fences raw)) as [mo|] eqn:H2.
  { apply search_needs_select in H2. congruence. }
  reflexivity.
Qed.

(** Conversely an occurrence of [SELECT] is always picked up. *)
Lemma extract_sql_some_select raw :
  contains (str "select") (lower (strip_fences raw)) = true ->
  extract_sql raw <> [].
Proof.
  intros H E.
  assert (N : search true SELECT_STMT (strip_fences raw) = None
              /\ search true SELECT_REST (strip_fences raw) = None).
  { destruct (extract_sql_shape raw) as [_|[W _]];
      [|rewrite E in W; discriminate].
    unfold extract_sql in E.
    destruct (search true SELECT_STMT (strip_fences raw)) as [mo|] eqn:H1.
    - exfalso. rewrite (search_group _ _ _ _ _ H1) in E.
      apply search_sound in H1 as [_ L].
      apply lang_select in L as [sel [t [Em [Hsel Lt]]]].
      apply lang_stmt_tail in Lt as [body ->].
      assert (W : well_formed (m_text mo)).
      { rewrite Em. split; [now apply startswith_select|].
        rewrite app_assoc. apply endswith_app. }
      rewrite (strip_well_formed _ W) in E. destruct W as [Ws We].
      destruct (finish_candidate (m_text mo) Ws) as [F1 F2].
      + rewrite Em, app_assoc. now apply rstrip_snoc.
      + cbv zeta in F1, F2. rewrite F1 in E. rewrite E in F2.
        destruct F2; discriminate.
    - split; [reflexivity|].
      destruct (search true SELECT_REST (strip_fences raw)) as [mo|] eqn:H2;
        [|reflexivity].
      exfalso. rewrite (search_group _ _ _ _ _ H2) in E.
      apply search_sound in H2 as [_ L].
      apply lang_select in L as [sel [t [Em [Hsel _]]]].
      rewrite Em, (strip_select _ _ Hsel) in E.
      destruct (finish_candidate (sel ++ rstrip t)) as [F1 F2].
      + now apply startswith_select.
      + now rewrite (rstrip_select _ _ Hsel), rstrip_idem.
      + cbv zeta in F1, F2. rewrite F1 in E. rewrite E in F2.
        destruct F2; discriminate. }
  destruct N as [_ N].
  apply contains_split in H as [p [q Hs]].
  unfold lower in Hs. apply map_eq_app in Hs as [p' [r [Es [_ Hr]]]].
  apply map_eq_app in Hr as [sel [q' [Er [Hsel _]]]].
  pose proof (search_from_none _ _ _ _ N p' r Es) as M.
  rewrite Er in M. revert M. apply match_at_complete.
  constructor. rewrite <- (app_nil_r sel). constructor.
  - now apply lang_lits_ic.
  - constructor. apply any_all.
Qed.

(** *** Fence-free input *)

Lemma contains_false_cons w c s :
  contains w (c :: s) = false ->
  startswith (c :: s) w = false /\ contains w s = false.
Proof. simpl. intros H. now apply orb_false_iff in H. Qed.

Lemma marker_starts_match w tag b x :
  match_at false (Seq (lits (w ++ tag)) (Star true ws)) b = Some x ->
  startswith b w = true.
Proof.
  destruct x as [[m rest] caps]. intros H.
  apply match_at_sound in H as [E L].
  inversion L as [| | |? ? m1 m2 L1 L2| | | |]; subst.
  apply lang_lits_cs in L1. subst m1. rewrite <- !app_assoc.
  apply startswith_app.
Qed.

Lemma sub_remove_marker_free w tag s :
  contains w s = false ->
  sub_remove false (Seq (lits (w ++ tag)) (Star true ws)) s = s.
Proof.
  unfold sub_remove. induction s as [|c s IH]; [reflexivity|].
  intros H. apply contains_false_cons in H as [H1 H2].
  simpl.
  destruct (match_at false (Seq (lits (w ++ tag)) (Star true ws)) (c :: s))
    as [x|] eqn:M.
  - apply marker_starts_match in M. congruence.
  - now rewrite (IH H2).
Qed.

Lemma strip_fences_fence_free s :
  contains backticks s = false -> strip_fences s = s.
Proof.
  intros H. unfold strip_fences.
  change FENCE_SQL with (Seq (lits (backticks ++ str "sql")) (Star true ws)).
  change FENCE with (Seq (lits (backticks ++ [])) (Star true ws)).
  now rewrite !(sub_remove_marker_free _ _ s H).
Qed.

Lemma app_eq_snoc {A} (a b c : list A) x :
  a ++ b = c ++ [x] ->
  (b = [] /\ a = c ++ [x]) \/ (exists b', b = b' ++ [x] /\ c = a ++ b').
Proof.
  intros H. destruct b as [|y b] using rev_ind.
  - left. now rewrite app_nil_r in H.
  - right. rewrite app_assoc in H. apply app_inj_tail in H as [H ->].
    exists b. auto.
Qed.

Lemma select_not_semicolon body : lower (body ++ str ";") <> str "select".
Proof.
  intros H. apply (f_equal (@rev ascii)) in H.
  rewrite lower_app, rev_app_distr in H. discriminate H.
Qed.

(** On a text that starts with [SELECT], has its only semicolon at the
    very end and has no fence marker, the extractor changes nothing. *)
Lemma extract_sql_single_statement body :
  startswith (lower (body ++ str ";")) (str "select") = true ->
  contains backticks (body ++ str ";") = false ->
  ~ In ";"%char body ->
  extract_sql (body ++ str ";") = body ++ str ";".
Proof.
  intros Hs Hf Hsemi. set (c := body ++ str ";") in *.
  assert (W : well_formed c) by (split; [exact Hs|apply endswith_app]).
  unfold extract_sql. rewrite (strip_fences_fence_free _ Hf).
  destruct (select_prefix _ Hs) as [sel [t [E Hsel]]].
  assert (T : exists mid, t = mid ++ str ";").
  { unfold c in E. symmetry in E. apply app_eq_snoc in E as [[-> E]|[b' [-> _]]].
    - exfalso. rewrite E in Hsel. now apply select_not_semicolon in Hsel.
    - now exists b'. }
  destruct T as [mid ->].
  assert (L : lang true SELECT_STMT c).
  { rewrite E. constructor. constructor; [now apply lang_lits_ic|].
    constructor; [constructor; apply any_all|].
    constructor. reflexivity. }
  destruct (search_at_start true SELECT_STMT c [] L)
    as [mo [Hsearch [_ [Esplit Lm]]]].
  rewrite app_nil_r in Hsearch, Esplit. rewrite Hsearch.
  rewrite (search_group _ _ _ _ _ Hsearch).
  assert (M : m_text mo = c).
  { apply lang_select in Lm as [sel' [t' [Em [_ Lt]]]].
    apply lang_stmt_tail in Lt as [body' ->].
    unfold c in Esplit. symmetry in Esplit.
    apply app_eq_snoc in Esplit as [[_ Et]|[b' [_ Eb]]]; [exact Et|].
    exfalso. apply Hsemi. rewrite Eb, Em.
    rewrite !in_app_iff. left. right. right. now left. }
  rewrite M, (strip_well_formed _ W).
  destruct W as [Ws We].
  destruct (finish_candidate c Ws) as [F1 _].
  - unfold c. now apply rstrip_snoc.
  - cbv zeta in F1. rewrite F1, We, andb_false_r. reflexivity.
Qed.

End Extract.


(** C5, as amended.  A candidate that starts with [SELECT] (in any letter
    case), ends with [;], has no other semicolon and contains no fence
    marker is returned unchanged. *)
Theorem extract_sql_idempotent_on_single_statement (candidate : pystr) :
  startswith (lower candidate) (str "select") = true ->
  endswith candidate (str ";") = true ->
  contains backticks candidate = false ->
  count_occ ascii_dec candidate ";"%char = 1 ->
  extract_sql candidate = candidate.
Proof.
  intros Hs He Hf Hc. apply endswith_split in He as [body ->].
  apply Extract.extract_sql_single_statement; try assumption.
  rewrite count_occ_app in Hc. simpl in Hc.
  destruct (ascii_dec ";" ";") as [_|N]; [|now elim N].
  apply (count_occ_not_In ascii_dec). lia.
Qed.

(** ** The prompt builder *)

Module Prompt.

Lemma unlines_app a b : unlines (a ++ b) = unlines a ++ unlines b.
Proof. unfold unlines. now rewrite map_app, concat_app. Qed.

Lemma unlines_cons l ls : unlines (l :: ls) = l ++ nl ++ unlines ls.
Proof. unfold unlines. simpl. now rewrite <- app_assoc. Qed.

Lemma lstrip_app_head a b : a <> [] -> lstrip a = a -> lstrip (a ++ b) = a ++ b.
Proof.
  destruct a as [|c a]; [congruence|]. simpl. intros _.
  destruct (isspace c); [|reflexivity].
  intros H. exfalso.
  destruct (lstrip_suffix a) as [l [E _]].
  apply (f_equal (@length ascii)) in H. apply (f_equal (@length ascii)) in E.
  rewrite length_app in E. simpl in H. lia.
Qed.

(** [strip] on a text framed by a solid head and a final solid character
    followed by white space. *)
Lemma strip_frame a b c w :
  a <> [] -> lstrip a = a -> isspace c = false -> forallb isspace w = true ->
  strip (a ++ b ++ c :: w) = a ++ b ++ [c].
Proof.
  intros Ha Hl Hc Hw. unfold strip. rewrite (lstrip_app_head _ _ Ha Hl).
  rewrite app_assoc, (rstrip_snoc_blank _ _ _ Hc Hw). now rewrite <- app_assoc.
Qed.

(** The prompt, piece by piece: the final [strip] removes exactly the last
    newline. *)
Lemma build_prompt_unfold table columns question sample_data previous_error :
  build_prompt table columns question sample_data previous_error
  = unlines preamble_lines
    ++ (str "Table: " ++ table ++ nl
        ++ str "Columns: " ++ cols_detail columns ++ nl
        ++ (if truthy sample_data
            then nl ++ str "Sample Data (first 3 rows):" ++ nl
                    ++ sample_data ++ nl
            else [])
        ++ unlines example_lines
        ++ (if truthy previous_error
            then nl ++ str "PREVIOUS ATTEMPT FAILED WITH ERROR:" ++ nl
                    ++ previous_error ++ nl ++ nl
                    ++ str "Please fix the query to avoid this error." ++ nl
            else [])
        ++ nl ++ str "USER QUESTION: " ++ question ++ nl ++ nl
        ++ str "Generate the MySQL query")
    ++ [":"%char].
Proof.
  unfold build_prompt.
  rewrite <- (strip_frame (unlines preamble_lines) _ ":" nl);
    [|discriminate|reflexivity|reflexivity|reflexivity].
  f_equal. rewrite unlines_app.
  set (H := unlines preamble_lines). set (X := unlines example_lines).
  rewrite !unlines_cons. unfold unlines at 1 2 3 4. simpl map. simpl concat.
  destruct (truthy sample_data), (truthy previous_error);
    rewrite <- ?app_assoc; simpl app; rewrite ?app_nil_r; reflexivity.
Qed.

(** *** Substrings of a concatenation *)

Lemma contains_prefix w q : contains w (w ++ q) = true.
Proof. apply contains_startswith, startswith_app. Qed.

Lemma contains_app_r w a b : contains w b = true -> contains w (a ++ b) = true.
Proof.
  intros H. induction a as [|c a IH]; [exact H|].
  simpl app. now apply contains_cons.
Qed.

Lemma contains_app_l w a b : contains w a = true -> contains w (a ++ b) = true.
Proof.
  intros H. apply contains_split in H as [p [q ->]].
  rewrite <- !app_assoc. apply contains_app.
Qed.

Lemma startswith_app_app a w s :
  startswith s w = true -> startswith (a ++ s) (a ++ w) = true.
Proof.
  intros H. induction a as [|c a IH]; [exact H|].
  simpl. now rewrite Ascii.eqb_refl.
Qed.

(** A chain of pieces at the front of a longer chain. *)
Ltac chain_prefix :=
  apply contains_startswith; repeat apply startswith_app_app;
  apply startswith_app.

(** *** Reading the preamble back *)

Lemma split_lines_cons cur c s :
  split_lines cur (c :: s)
  = if Ascii.eqb c (ascii_of_nat 10) then cur :: split_lines [] s
    else split_lines (cur ++ [c]) s.
Proof. reflexivity. Qed.

Lemma split_lines_line a : forall cur b,
  newline_free a = true ->
  split_lines cur (a ++ nl ++ b) = (cur ++ a) :: split_lines [] b.
Proof.
  induction a as [|c a IH]; intros cur b Ha.
  - change ([] ++ nl ++ b) with (ascii_of_nat 10 :: b).
    rewrite split_lines_cons, Ascii.eqb_refl. now rewrite app_nil_r.
  - change ((c :: a) ++ nl ++ b) with (c :: (a ++ nl ++ b)).
    simpl in Ha. apply andb_true_iff in Ha as [Hc Ha].
    apply negb_true_iff in Hc.
    rewrite split_lines_cons, Hc, (IH _ _ Ha), <- app_assoc.
    reflexivity.
Qed.

Lemma lines_unlines ls rest :
  forallb newline_free ls = true ->
  lines (unlines ls ++ rest) = ls ++ lines rest.
Proof.
  unfold lines. induction ls as [|l ls IH]; simpl; [reflexivity|].
  intros H. apply andb_true_iff in H as [Hl Hls].
  rewrite unlines_cons, <- !app_assoc, (split_lines_line _ _ _ Hl).
  simpl. now rewrite (IH Hls).
Qed.

Lemma take_until_stop stop ls h rest :
  forallb (fun l => negb (stop l)) ls = true -> stop h = true ->
  take_until stop (ls ++ h :: rest) = ls.
Proof.
  intros Hls Hh. induction ls as [|l ls IH]; simpl.
  - now rewrite Hh.
  - simpl in Hls. apply andb_true_iff in Hls as [Hl Hls].
    apply negb_true_iff in Hl. now rewrite Hl, (IH Hls).
Qed.

(** The preamble of every prompt is the fixed text above the
    [DATABASE INFORMATION:] header. *)
Lemma preamble_of_build_prompt table columns question sample_data previous_error :
  preamble_of (build_prompt table columns question sample_data previous_error)
  = removelast preamble_lines.
Proof.
  rewrite build_prompt_unfold. unfold preamble_of.
  rewrite lines_unlines by reflexivity.
  change preamble_lines with
    (removelast preamble_lines ++ [str "DATABASE INFORMATION:"]) at 1.
  rewrite <- app_assoc. simpl app at 2.
  apply take_until_stop; reflexivity.
Qed.

End Prompt.

(** C7, as amended.  Every prompt begins with the same role/instruction
    preamble, and that preamble holds exactly six numbered rules: output SQL
    only; no markdown; default row limit; aliases; syntactic correctness;
    backticks for names with special characters. *)
Theorem build_prompt_preamble_six_rules
        (table : pystr) (columns : list (pystr * pystr))
        (question sample_data previous_error : pystr) :
  let prompt := build_prompt table columns question sample_data previous_error in
  (exists rest, prompt = unlines preamble_lines ++ rest)
  /\ numbered_rules prompt
     = [ str "1. Output ONLY the SQL query";
         str "2. No explanations, no markdown code blocks, no commentary";
         str "3. Use LIMIT 100 unless the user specifies a different limit";
         str "4. Always use proper table and column aliases when needed";
         str "5. Ensure the query is syntactically correct for MySQL";
         str "6. Use backticks for table/column names if they contain special characters" ]
  /\ length (numbered_rules prompt) = 6.
Proof.
  intros prompt. subst prompt. split.
  - rewrite Prompt.build_prompt_unfold. eexists. reflexivity.
  - unfold numbered_rules. rewrite Prompt.preamble_of_build_prompt.
    split; vm_compute; reflexivity.
Qed.

(** C8.  Every prompt contains the table name and the question as given,
    and, when a prior error is supplied, the error text on the line right
    under the [PREVIOUS ATTEMPT FAILED WITH ERROR:] marker. *)
Theorem build_prompt_contains_inputs
        (table : pystr) (columns : list (pystr * pystr))
        (question sample_data previous_error : pystr) :
  let prompt := build_prompt table columns question sample_data previous_error in
  contains table prompt = true
  /\ contains question prompt = true
  /\ contains (str "Table: " ++ table ++ nl) prompt = true
  /\ contains (str "USER QUESTION: " ++ question ++ nl) prompt = true
  /\ (truthy previous_error = true ->
      contains previous_error prompt = true
      /\ contains (str "PREVIOUS ATTEMPT FAILED WITH ERROR:" ++ nl
                       ++ previous_error ++ nl) prompt = true).
Proof.
  intros prompt. subst prompt. rewrite Prompt.build_prompt_unfold.
  repeat apply conj.
  - apply Prompt.contains_app_r, Prompt.contains_app_l, Prompt.contains_app_r.
    apply Prompt.contains_prefix.
  - apply Prompt.contains_app_r, Prompt.contains_app_l.
    do 11 apply Prompt.contains_app_r. apply Prompt.contains_prefix.
  - apply Prompt.contains_app_r, Prompt.contains_app_l. Prompt.chain_prefix.
  - apply Prompt.contains_app_r, Prompt.contains_app_l.
    do 10 apply Prompt.contains_app_r. Prompt.chain_prefix.
  - intros He. rewrite He. split.
    + apply Prompt.contains_app_r, Prompt.contains_app_l.
      do 8 apply Prompt.contains_app_r. apply Prompt.contains_app_l.
      do 3 apply Prompt.contains_app_r. apply Prompt.contains_prefix.
    + apply Prompt.contains_app_r, Prompt.contains_app_l.
      do 8 apply Prompt.contains_app_r. apply Prompt.contains_app_l.
      apply Prompt.contains_app_r. Prompt.chain_prefix.
Qed.

(** ** The generate handler *)

Module Generate.

Lemma detect_needs_text q n : detect_top_n q = Some n -> truthy (strip q) = true.
Proof.
  intros H. destruct (strip q) eqn:E; [|reflexivity].
  apply strip_nil_blank in E. rewrite <- forallb_isspace_lower in E.
  apply strip_blank in E. unfold detect_top_n in H. rewrite E in H.
  discriminate H.
Qed.

End Generate.

(** C6.  With table [orders] selected, the question
    ["show me the top 7 rows"] takes the fast path: the handler builds
    exactly [SELECT * FROM `orders` LIMIT 7;], stores its pretty-printed
    form, and its whole run makes no database or generation call, so the
    prompt is never built and the Generation Client is never reached. *)
Theorem top7_orders_fast_path (E : externals) (st : session) :
  selected_table st = Some (str "orders") ->
  let q := str "show me the top 7 rows" in
  detect_top_n q = Some 7%Z
  /\ generated_sql (final_state (on_generate E q) st)
     = pretty_sql E (str "SELECT * FROM `orders` LIMIT 7;")
  /\ sql_preview (final_state (on_generate E q) st)
     = pretty_sql E (str "SELECT * FROM `orders` LIMIT 7;")
  /\ last_raw_llm (final_state (on_generate E q) st) = BYPASS_NOTE
  /\ trace (on_generate E q) st = [Display (DirectSql (Some 7%Z))]
  /\ llm_calls (trace (on_generate E q) st) = [].
Proof.
  intros H q. subst q. destruct st as [creds tbl g r p e lq].
  simpl in H. subst tbl.
  repeat apply conj; vm_compute; reflexivity.
Qed.

(** C10.  [detect_top_n] returns 0 on ["top 0"] and on ["first 0"]; and
    whenever it returns 0 the handler treats the result as false, leaves the
    fast path aside and goes through the Generation Client: it fetches the
    columns and the sample rows, posts one prompt, and shows either the
    generated SQL or the fallback, never the direct SQL. *)
Theorem top_zero_goes_through_llm :
  detect_top_n (str "top 0") = Some 0%Z
  /\ detect_top_n (str "first 0") = Some 0%Z
  /\ forall (E : externals) (st : session) (q : pystr),
       detect_top_n q = Some 0%Z ->
       let tbl := selected_table st in
       let creds := db_credentials st in
       let prompt :=
         build_prompt (format_table tbl) (columns_of E creds tbl) q
                      (sample_of E creds tbl 3) [] in
       int_truthy (detect_top_n q) = false
       /\ (exists shown,
             trace (on_generate E q) st
             = [GetColumns creds tbl; GetSampleData creds tbl 3;
                LlmPost prompt; Display shown]
             /\ (shown = SqlGenerated \/ shown = FallbackUsed))
       /\ llm_calls (trace (on_generate E q) st) = [prompt].
Proof.
  split; [vm_compute; reflexivity|]. split; [vm_compute; reflexivity|].
  intros E st q H tbl creds prompt.
  split; [now rewrite H|].
  assert (T : exists shown,
             trace (on_generate E q) st
             = [GetColumns creds tbl; GetSampleData creds tbl 3;
                LlmPost prompt; Display shown]
             /\ (shown = SqlGenerated \/ shown = FallbackUsed)).
  { unfold trace, on_generate.
    rewrite (Generate.detect_needs_text _ _ H), H.
    unfold call_llm, get_columns, get_sample_data, use_sql, bind, emit, get,
      ret, modify. simpl.
    fold tbl creds prompt.
    destruct (post E prompt) as [e|data]; simpl.
    - exists FallbackUsed. auto.
    - match goal with
      | |- context [extract_sql ?raw] => destruct (extract_sql raw) as [|c s]
      end; simpl.
      + exists FallbackUsed. auto.
      + destruct (truthy (strip (c :: s))); simpl;
          [exists SqlGenerated|exists FallbackUsed]; auto. }
  split; [exact T|].
  destruct T as [shown [-> _]]. reflexivity.
Qed.

(** ** Concrete instances *)

(** C1 at [" SELECT id FROM t; "], typed into the editor of an offline
    session: the gate accepts it and the run handler executes its trimmed
    form. *)
Lemma gate_accepts_only_clean_select_witness :
  (let s := strip (lower (str " SELECT id FROM t; ")) in
   s <> [] /\ startswith s (str "select") = true
   /\ forall w, In w forbidden -> contains w s = false)
  /\ (str "SELECT id FROM t;" = strip (str " SELECT id FROM t; ")
      /\ fst (safe_sql_check (str "SELECT id FROM t;")) = true
      /\ forall w, In w forbidden ->
           contains w (strip (lower (str "SELECT id FROM t;"))) = false).
Proof.
  split.
  - apply (proj1 gate_accepts_only_clean_select). vm_compute. reflexivity.
  - apply (proj2 gate_accepts_only_clean_select offline orders_session
                 (str " SELECT id FROM t; ")).
    vm_compute. left. reflexivity.
Defined.

(** C2 as stated fails at [W = drop], [sql = "DROP TABLE t"]: the keyword
    occurs, the string is rejected, but the reason is the SELECT-prefix one
    and does not name the keyword. *)
Lemma forbidden_keyword_reason_counterexample :
  In (str "drop") forbidden
  /\ contains (str "drop") (lower (str "DROP TABLE t")) = true
  /\ safe_sql_check (str "DROP TABLE t") = (false, str "Only SELECT allowed.")
  /\ contains (str "drop") (snd (safe_sql_check (str "DROP TABLE t"))) = false.
Proof.
  split; [left; reflexivity|]. do 2 (split; [vm_compute; reflexivity|]).
  vm_compute. reflexivity.
Qed.

(** C2 as amended, at [W = delete], [sql = "select * from t; DELETE FROM t"]. *)
Lemma forbidden_keyword_rejected_witness :
  fst (safe_sql_check (str "select * from t; DELETE FROM t")) = false
  /\ exists V,
       snd (safe_sql_check (str "select * from t; DELETE FROM t"))
       = str "Forbidden keyword '" ++ V ++ str "'."
       /\ (forall before after,
             forbidden = before ++ str "delete" :: after ->
             (forall U, In U before ->
                contains U (strip (lower (str "select * from t; DELETE FROM t")))
                = false) -> V = str "delete").
Proof.
  destruct (forbidden_keyword_rejected
              (str "delete") (str "select * from t; DELETE FROM t"))
    as [H1 [_ H3]].
  - vm_compute. right. left. reflexivity.
  - vm_compute. reflexivity.
  - split; [exact H1|].
    destruct H3 as [V [_ [_ [H4 [_ H5]]]]]; [vm_compute; reflexivity|].
    exists V. split; [exact H4|exact H5].
Defined.

(** C3 as stated fails at the empty string: its trimmed, lower-cased form
    does not start with [select], yet the reason is ["SQL empty."]. *)
Lemma non_select_reason_counterexample :
  startswith (strip (lower [])) (str "select") = false
  /\ safe_sql_check [] = (false, str "SQL empty.")
  /\ snd (safe_sql_check []) <> str "Only SELECT allowed.".
Proof.
  split; [reflexivity|]. split; [reflexivity|]. vm_compute. discriminate.
Qed.

(** C3 as amended, at ["DROP TABLE t"]. *)
Lemma non_select_rejected_witness :
  safe_sql_check (str "DROP TABLE t") = (false, str "Only SELECT allowed.").
Proof.
  apply non_select_rejected; vm_compute; [discriminate|reflexivity].
Defined.

(** C9 at a string of a space, a tab and a newline. *)
Lemma blank_sql_rejected_witness :
  safe_sql_check (" "%char :: ascii_of_nat 9 :: nl) = (false, str "SQL empty.").
Proof.
  apply (blank_sql_rejected (" "%char :: ascii_of_nat 9 :: nl)).
  vm_compute. reflexivity.
Defined.



(** C5 as stated fails at ["SELECT 1; SELECT 2;"]: it starts with [SELECT],
    ends with [;] and has no fence marker, but only its first statement is
    returned. *)
Lemma extract_sql_idempotent_counterexample :
  startswith (str "SELECT 1; SELECT 2;") (str "SELECT") = true
  /\ endswith (str "SELECT 1; SELECT 2;") (str ";") = true
  /\ contains backticks (str "SELECT 1; SELECT 2;") = false
  /\ extract_sql (str "SELECT 1; SELECT 2;") = str "SELECT 1;"
  /\ extract_sql (str "SELECT 1; SELECT 2;") <> str "SELECT 1; SELECT 2;".
Proof.
  do 4 (split; [vm_compute; reflexivity|]). vm_compute. discriminate.
Qed.

(** C5 as amended, at ["SELECT * FROM `orders` LIMIT 7;"]. *)
Lemma extract_sql_idempotent_witness :
  extract_sql (str "SELECT * FROM `orders` LIMIT 7;")
  = str "SELECT * FROM `orders` LIMIT 7;".
Proof.
  apply extract_sql_idempotent_on_single_statement; vm_compute; reflexivity.
Defined.

(** C6 in the session with table [orders] selected. *)
Lemma top7_orders_fast_path_witness :
  generated_sql
    (final_state (on_generate offline (str "show me the top 7 rows"))
                 orders_session)
  = str "SELECT * FROM `orders` LIMIT 7;"
  /\ trace (on_generate offline (str "show me the top 7 rows")) orders_session
     = [Display (DirectSql (Some 7%Z))].
Proof.
  destruct (top7_orders_fast_path offline orders_session eq_refl)
    as [_ [H1 [_ [_ [H2 _]]]]].
  split; [exact H1|exact H2].
Defined.

(** C7 as stated fails on every prompt, for instance this one: its preamble
    has six numbered rules, not five. *)
Lemma build_prompt_five_rules_counterexample :
  length (numbered_rules
            (build_prompt (str "orders") [] (str "how many orders?") [] []))
  <> 5.
Proof. vm_compute. discriminate. Qed.

(** C8 with a prior error supplied. *)
Lemma build_prompt_contains_inputs_witness :
  contains (str "PREVIOUS ATTEMPT FAILED WITH ERROR:" ++ nl
              ++ str "Unknown column 'x'" ++ nl)
           (build_prompt (str "orders") [(str "id", str "int")]
                         (str "how many orders?") []
                         (str "Unknown column 'x'")) = true.
Proof.
  apply (build_prompt_contains_inputs (str "orders") [(str "id", str "int")]
           (str "how many orders?") [] (str "Unknown column 'x'")).
  vm_compute. reflexivity.
Defined.

(** C10 at ["Display the first 0 rows"] in the offline session. *)
Lemma top_zero_goes_through_llm_witness :
  llm_calls (trace (on_generate offline (str "Display the first 0 rows"))
                   orders_session)
  = [build_prompt (str "orders") [] (str "Display the first 0 rows") [] []].
Proof.
  apply (proj2 (proj2 top_zero_goes_through_llm) offline orders_session
               (str "Display the first 0 rows")).
  vm_compute. reflexivity.
Defined.

(** * Further properties of the code *)

(** ** The safety gate, continued *)

Module GateMore.

Lemma lstrip_starts_solid s c t : lstrip s = c :: t -> isspace c = false.
Proof.
  induction s as [|x s IH]; simpl; [discriminate|].
  destruct (isspace x) eqn:Hx; [exact IH|].
  intros [= <- _]. exact Hx.
Qed.

Lemma rstrip_keeps_head c t :
  isspace c = false -> exists r, rstrip (c :: t) = c :: r.
Proof.
  intros Hc. simpl. destruct (rstrip t) as [|y r].
  - rewrite Hc. now exists [].
  - now exists (y :: r).
Qed.

Lemma strip_idem s : strip (strip s) = strip s.
Proof.
  unfold strip. destruct (lstrip s) as [|c t] eqn:E; [reflexivity|].
  pose proof (lstrip_starts_solid _ _ _ E) as Hc.
  destruct (rstrip_keeps_head c t Hc) as [r Hr].
  rewrite Hr, (lstrip_head _ _ Hc), <- Hr. apply Extract.rstrip_idem.
Qed.

Lemma lower_idem s : lower (lower s) = lower s.
Proof.
  unfold lower. rewrite map_map. apply map_ext. intros c.
  destruct c as [[] [] [] [] [] [] [] []]; reflexivity.
Qed.

Lemma truthy_lower s : truthy (lower s) = truthy s.
Proof. now destruct s. Qed.

(** The verdict is a function of the lower-cased, trimmed text. *)
Lemma gate_depends_on_normal_form a b :
  strip (lower a) = strip (lower b) -> safe_sql_check a = safe_sql_check b.
Proof.
  intros H. unfold safe_sql_check.
  rewrite <- (truthy_lower (strip a)), <- (truthy_lower (strip b)).
  rewrite <- !strip_lower, H. reflexivity.
Qed.

End GateMore.

(** X1.  The gate accepts a string exactly when its lower-cased, trimmed
    form starts with [select] and contains none of the forbidden keywords;
    nothing else (a second statement, a comment, a sub-query) is looked
    at. *)
Theorem gate_accepts_iff (sql : pystr) :
  fst (safe_sql_check sql) = true
  <-> (startswith (strip (lower sql)) (str "select") = true
       /\ forall w, In w forbidden -> contains w (strip (lower sql)) = false).
Proof.
  destruct (Gate.gate_cases sql)
    as [[Hb E]|[[_ [Hsel E]]|[[_ [Hsel [w [Hf E]]]]|[_ [Hsel [Hf E]]]]]];
    cbv zeta in *; rewrite E; simpl fst; split; try discriminate.
  - intros [Hs _]. apply strip_nil_blank in Hb.
    rewrite <- forallb_isspace_lower in Hb. apply strip_blank in Hb.
    rewrite Hb in Hs. discriminate.
  - intros [Hs _]. congruence.
  - intros [_ Hn]. destruct (find_some _ _ Hf) as [Hin Hc].
    rewrite (Hn w Hin) in Hc. discriminate.
  - intros _. split; [exact Hsel|]. intros w Hw. exact (find_none _ _ Hf w Hw).
  - reflexivity.
Qed.

(** X2.  Two strings with the same lower-cased, trimmed form get the same
    verdict and the same reason; in particular trimming a string or changing
    its letter case never changes what the gate answers. *)
Theorem gate_ignores_case_and_margins (a b : pystr) :
  strip (lower a) = strip (lower b) ->
  safe_sql_check a = safe_sql_check b
  /\ safe_sql_check (strip a) = safe_sql_check a
  /\ safe_sql_check (lower a) = safe_sql_check a.
Proof.
  intros H. split; [now apply GateMore.gate_depends_on_normal_form|]. split.
  - apply GateMore.gate_depends_on_normal_form.
    now rewrite !strip_lower, GateMore.strip_idem.
  - apply GateMore.gate_depends_on_normal_form.
    now rewrite GateMore.lower_idem.
Qed.

(** X3.  The answer of the gate is one of four: accepted with an empty
    reason, or rejected with ["SQL empty."], with ["Only SELECT allowed."],
    or with ["Forbidden keyword 'w'."] for one of the nine listed keywords.
    So the reason is empty exactly when the string is accepted. *)
Theorem gate_reasons_closed (sql : pystr) :
  (safe_sql_check sql = (true, [])
   \/ safe_sql_check sql = (false, str "SQL empty.")
   \/ safe_sql_check sql = (false, str "Only SELECT allowed.")
   \/ exists w, In w forbidden
        /\ safe_sql_check sql = (false, str "Forbidden keyword '" ++ w ++ str "'."))
  /\ (snd (safe_sql_check sql) = [] <-> fst (safe_sql_check sql) = true).
Proof.
  destruct (Gate.gate_cases sql)
    as [[_ E]|[[_ [_ E]]|[[_ [_ [w [Hf E]]]]|[_ [_ [_ E]]]]]]; rewrite E.
  - split; [auto|]. split; discriminate.
  - split; [auto|]. split; discriminate.
  - split.
    + right. right. right. exists w. split; [|reflexivity].
      now destruct (find_some _ _ Hf).
    + split; discriminate.
  - split; [auto|]. split; reflexivity.
Qed.

(** ** The matcher: which match is chosen *)

Module ReMore.
Import Re ReFacts.

Lemma span (p : ascii -> bool) s :
  exists m rest, s = m ++ rest /\ forallb p m = true
                 /\ not_headed_by p rest = true.
Proof.
  induction s as [|c s [m [rest [E [Hm Hr]]]]].
  - now exists [], [].
  - destruct (p c) eqn:Hc.
    + exists (c :: m), rest. simpl. rewrite Hc, Hm, E. auto.
    + exists [], (c :: s). simpl. rewrite Hc. auto.
Qed.

(** A greedy repetition takes the whole run when the rest is accepted. *)
Lemma star_greedy_exact {A} p m rest caps (k : cont A) x :
  forallb p m = true -> not_headed_by p rest = true ->
  k rest caps = Some x -> star_greedy p (m ++ rest) caps k = Some x.
Proof.
  intros Hm Hr Hk. induction m as [|c m IH]; simpl.
  - destruct rest as [|d r]; [exact Hk|]. simpl in Hr |- *.
    apply negb_true_iff in Hr. now rewrite Hr.
  - simpl in Hm. apply andb_true_iff in Hm as [Hc Hm].
    now rewrite Hc, (IH Hm).
Qed.

(** A lazy repetition stops at the first place where the rest is accepted. *)
Lemma star_lazy_first {A} p s caps (k : cont A) x :
  star_lazy p s caps k = Some x ->
  exists m rest,
    s = m ++ rest /\ forallb p m = true /\ k rest caps = Some x
    /\ forall m1 m2, m = m1 ++ m2 -> m2 <> [] -> k (m2 ++ rest) caps = None.
Proof.
  induction s as [|c s IH]; simpl; intros H.
  - destruct (k [] caps) eqn:Hk; [|discriminate]. exists [], [].
    repeat apply conj; try reflexivity; [congruence|].
    intros m1 m2 E N. symmetry in E. apply app_eq_nil in E as [_ ->]. now elim N.
  - destruct (k (c :: s) caps) eqn:Hk.
    + exists [], (c :: s). repeat apply conj; try reflexivity; [congruence|].
      intros m1 m2 E N. symmetry in E. apply app_eq_nil in E as [_ ->].
      now elim N.
    + destruct (p c) eqn:Hp; [|discriminate].
      destruct (IH H) as [m [rest [E [Hm [Hk' Hmin]]]]].
      exists (c :: m), rest. simpl. rewrite Hp, Hm, E.
      repeat apply conj; try reflexivity; [exact Hk'|].
      intros m1 m2 E' N. destruct m1 as [|d m1]; simpl in E'.
      * subst m2. simpl. now rewrite <- E.
      * injection E' as _ E'. now apply (Hmin m1 m2).
Qed.

(** [re.search] in full: the text before the match, and no match at any
    earlier position. *)
Lemma search_from_leftmost ic r : forall s pre mo,
  search_from ic r pre s = Some mo ->
  exists a,
    m_pre mo = pre ++ a /\ s = a ++ m_text mo ++ m_post mo
    /\ match_at ic r (m_text mo ++ m_post mo)
       = Some (m_text mo, m_post mo, m_caps mo)
    /\ forall a1 a2, a = a1 ++ a2 -> a2 <> [] ->
         match_at ic r (a2 ++ m_text mo ++ m_post mo) = None.
Proof.
  induction s as [|c s IH]; intros pre mo; simpl.
  - destruct (match_at ic r []) as [[[m rest] caps]|] eqn:H; [|discriminate].
    intros [= <-]. simpl. exists [].
    destruct (match_at_sound _ _ _ _ _ _ H) as [E _]. rewrite <- E.
    rewrite app_nil_r. repeat apply conj; auto.
    intros a1 a2 Ea N. symmetry in Ea. apply app_eq_nil in Ea as [_ ->].
    now elim N.
  - destruct (match_at ic r (c :: s)) as [[[m rest] caps]|] eqn:H.
    + intros [= <-]. simpl. exists [].
      destruct (match_at_sound _ _ _ _ _ _ H) as [E _]. rewrite <- E.
      rewrite app_nil_r. repeat apply conj; auto.
      intros a1 a2 Ea N. symmetry in Ea. apply app_eq_nil in Ea as [_ ->].
      now elim N.
    + intros H'. destruct (IH _ _ H') as [a [E1 [E2 [E3 Hmin]]]].
      exists (c :: a). rewrite E1, <- app_assoc. simpl.
      repeat apply conj; auto; [now rewrite E2|].
      intros a1 a2 Ea N. destruct a1 as [|d a1]; simpl in Ea.
      * subst a2. simpl. now rewrite <- E2.
      * injection Ea as _ Ea. now apply (Hmin a1 a2).
Qed.

Lemma search_from_first ic r b m rest caps : forall a pre,
  match_at ic r b = Some (m, rest, caps) ->
  (forall a1 a2, a = a1 ++ a2 -> a2 <> [] -> match_at ic r (a2 ++ b) = None) ->
  search_from ic r pre (a ++ b) = Some (MkMatch (pre ++ a) m rest caps).
Proof.
  induction a as [|c a IH]; intros pre Hb Hmin.
  - rewrite app_nil_r. simpl app. destruct b; simpl; now rewrite Hb.
  - assert (N0 : match_at ic r (c :: a ++ b) = None)
      by (apply (Hmin [] (c :: a) eq_refl); discriminate).
    simpl. rewrite N0.
    rewrite (IH (pre ++ [c]) Hb), <- app_assoc; [reflexivity|].
    intros a1 a2 E N. apply (Hmin (c :: a1) a2); [now rewrite E|exact N].
Qed.

(** No match can start before the match that [re.search] returns. *)
Lemma search_not_after ic r s mo a b :
  search ic r s = Some mo -> s = a ++ b -> match_at ic r b <> None ->
  exists u, a = m_pre mo ++ u.
Proof.
  intros H E Hb. apply search_from_leftmost in H as [p [E1 [E2 [_ Hmin]]]].
  simpl in E1. subst p. rewrite E2 in E.
  apply app_eq_app in E as [l [[E3 E4]|[E3 E4]]].
  - destruct l as [|x l].
    + exists []. now rewrite app_nil_r in E3 |- *.
    + exfalso. apply Hb. rewrite E4. apply (Hmin a (x :: l) E3). discriminate.
  - now exists l.
Qed.

(** The first statement pattern, read back from a match: the word, then a
    body without semicolon, then the semicolon. *)
Lemma stmt_match i w s m rest caps :
  match_at true (Grp i (Seq (lits w) (Seq (Star false any) (Lit ";")))) s
  = Some (m, rest, caps) ->
  exists sel body,
    m = sel ++ body ++ str ";" /\ lower sel = lower w /\ ~ In ";"%char body.
Proof.
  unfold match_at. cbn [rx_match]. intros H.
  apply rx_match_sound in H as [m1 [rest1 [caps1 [E1 [L1 H]]]]].
  apply star_lazy_first in H as [m2 [rest2 [E2 [_ [H Hmin]]]]].
  destruct rest2 as [|x s3]; [discriminate|].
  destruct (chr_match true ";" x) eqn:Hx; [|discriminate].
  apply Extract.semicolon_only in Hx. subst x.
  injection H as Hm _ _. apply lang_lits_ic in L1.
  exists m1, m2. repeat apply conj; [|exact L1|].
  - rewrite <- Hm, E1, E2.
    replace (m1 ++ m2 ++ ";"%char :: s3) with ((m1 ++ m2 ++ str ";") ++ s3)
      by (now rewrite <- !app_assoc).
    apply firstn_matched.
  - intros Hin. apply in_split in Hin as [u [v Em]].
    specialize (Hmin u (";"%char :: v) Em).
    change ((";"%char :: v) ++ ";"%char :: s3)
      with (";"%char :: (v ++ ";"%char :: s3)) in Hmin.
    cbv beta iota in Hmin.
    change (chr_match true ";" ";") with true in Hmin.
    discriminate Hmin. discriminate.
Qed.

End ReMore.

(** ** The SQL extractor, continued *)

Module ExtractMore.
Import Re ReFacts ReMore.

Lemma rstrip_prefix s : exists u, s = rstrip s ++ u.
Proof.
  induction s as [|c s [u E]]; simpl.
  - now exists [].
  - destruct (rstrip s) as [|y r] eqn:Er.
    + destruct (isspace c); [now exists (c :: s)|].
      exists s. reflexivity.
    + exists u. simpl. now rewrite E at 1.
Qed.

Lemma strip_substring s : exists l r, s = l ++ strip s ++ r.
Proof.
  destruct (lstrip_suffix s) as [l [E _]].
  destruct (rstrip_prefix (lstrip s)) as [r Er].
  exists l, r. unfold strip. now rewrite <- Er.
Qed.

Lemma contains_sub w p m q : contains w m = true -> contains w (p ++ m ++ q) = true.
Proof. intros H. now apply Prompt.contains_app_r, Prompt.contains_app_l. Qed.

(** A character that is not the last of [w] cannot complete an occurrence
    of [w]. *)
Lemma contains_snoc_other w x c :
  (forall w', w <> w' ++ [c]) ->
  contains w (x ++ [c]) = true -> contains w x = true.
Proof.
  intros Hw H. apply contains_split in H as [p [q E]].
  rewrite app_assoc in E. symmetry in E.
  apply Extract.app_eq_snoc in E as [[-> E]|[q' [-> E]]].
  - destruct w as [|a w] using rev_ind.
    + destruct x; reflexivity.
    + rewrite app_assoc in E. apply app_inj_tail in E as [_ ->].
      now elim (Hw w).
  - rewrite E, <- app_assoc. apply contains_app.
Qed.

(** *** No fence marker survives the second [re.sub] *)

Lemma match_starts c0 w X s m rest caps :
  match_at false (Seq (lits (c0 :: w)) X) s = Some (m, rest, caps) ->
  exists m' s', m = c0 :: m' /\ s = c0 :: s'.
Proof.
  intros H. apply match_at_sound in H as [E L].
  inversion L as [| | |? ? m1 m2 L1 L2| | | |]; subst.
  change (Seq (Lit c0) (lits w)) with (lits (c0 :: w)) in L1.
  apply lang_lits_cs in L1. subst m1. simpl. eauto.
Qed.

Lemma fence_is : FENCE = Seq (lits (tick :: [tick; tick])) (Star true ws).
Proof. reflexivity. Qed.

Lemma sub_fence_step c s :
  startswith (c :: s) backticks = false ->
  sub_remove_from false FENCE 0 (c :: s) = c :: sub_remove_from false FENCE 0 s.
Proof.
  intros H. simpl.
  destruct (match_at false FENCE (c :: s)) as [[[m rest] caps]|] eqn:M;
    [|reflexivity].
  destruct m as [|x m']; [reflexivity|].
  exfalso. rewrite fence_is in M.
  change (tick :: [tick; tick]) with (backticks ++ []) in M.
  apply Extract.marker_starts_match in M. congruence.
Qed.

Lemma sub_fence_head1 s :
  startswith s [tick] = false ->
  startswith (sub_remove_from false FENCE 0 s) [tick] = false.
Proof.
  destruct s as [|d s]; [reflexivity|]. intros H.
  rewrite sub_fence_step.
  - exact H.
  - simpl in H |- *. apply andb_false_iff in H as [H|H]; [|discriminate].
    now rewrite H.
Qed.

Lemma sub_fence_head2 s :
  startswith s [tick; tick] = false ->
  startswith (sub_remove_from false FENCE 0 s) [tick; tick] = false.
Proof.
  destruct s as [|d s]; [reflexivity|]. intros H.
  assert (N : startswith (d :: s) backticks = false).
  { change backticks with ([tick; tick] ++ [tick]).
    destruct (startswith (d :: s) ([tick; tick] ++ [tick])) eqn:T; [|reflexivity].
    apply startswith_split in T as [t T]. rewrite T, <- app_assoc in H.
    now rewrite startswith_app in H. }
  rewrite (sub_fence_step _ _ N).
  change (startswith (d :: s) [tick; tick])
    with (Ascii.eqb tick d && startswith s [tick]) in H.
  change (startswith (d :: sub_remove_from false FENCE 0 s) [tick; tick])
    with (Ascii.eqb tick d && startswith (sub_remove_from false FENCE 0 s) [tick]).
  destruct (Ascii.eqb tick d); [|reflexivity]. simpl in H |- *.
  now apply sub_fence_head1.
Qed.

Lemma sub_fence_free : forall s skip,
  contains backticks (sub_remove_from false FENCE skip s) = false.
Proof.
  induction s as [|c s IH]; intros skip; [destruct skip; reflexivity|].
  destruct skip as [|n]; [|apply IH].
  destruct (startswith (c :: s) backticks) eqn:T.
  - simpl.
    destruct (match_at false FENCE (c :: s)) as [[[m rest] caps]|] eqn:M.
    + rewrite fence_is in M. apply match_starts in M as [m' [s' [-> _]]].
      apply IH.
    + exfalso. apply startswith_split in T as [t T]. revert M. rewrite T.
      apply match_at_complete. rewrite <- (app_nil_r backticks).
      constructor; [now apply lang_lits_cs|now constructor].
  - rewrite (sub_fence_step _ _ T).
    change (contains backticks (c :: sub_remove_from false FENCE 0 s))
      with (startswith (c :: sub_remove_from false FENCE 0 s) backticks
            || contains backticks (sub_remove_from false FENCE 0 s)).
    rewrite IH, orb_false_r.
    change (startswith (c :: s) backticks)
      with (Ascii.eqb tick c && startswith s [tick; tick]) in T.
    change (startswith (c :: sub_remove_from false FENCE 0 s) backticks)
      with (Ascii.eqb tick c
            && startswith (sub_remove_from false FENCE 0 s) [tick; tick]).
    destruct (Ascii.eqb tick c); [|reflexivity]. simpl in T |- *.
    now apply sub_fence_head2.
Qed.

Lemma strip_fences_clean raw : contains backticks (strip_fences raw) = false.
Proof. unfold strip_fences, sub_remove. apply sub_fence_free. Qed.

(** *** What the extractor returns *)

Lemma select_no_semicolon sel : lower sel = str "select" -> ~ In ";"%char sel.
Proof.
  intros H Hin. apply (in_map lower_char) in Hin. fold (lower sel) in Hin.
  rewrite H in Hin. simpl in Hin.
  repeat (destruct Hin as [Hin|Hin]; [discriminate Hin|]). exact Hin.
Qed.

Lemma endswith_in s c : endswith s [c] = true -> In c s.
Proof.
  intros H. apply endswith_split in H as [t ->].
  apply in_or_app. right. now left.
Qed.

(** The result is empty, or it is a piece [sel ++ b] of the fence-free text,
    starting at an occurrence of [SELECT] and holding no semicolon, with one
    semicolon put after it. *)
Lemma extract_sql_spec raw :
  extract_sql raw = []
  \/ exists pre sel b post,
       strip_fences raw = pre ++ (sel ++ b) ++ post
       /\ lower sel = str "select" /\ ~ In ";"%char b
       /\ extract_sql raw = (sel ++ b) ++ str ";".
Proof.
  unfold extract_sql.
  destruct (search true SELECT_STMT (strip_fences raw)) as [mo|] eqn:H1.
  - right. rewrite (search_group _ _ _ _ _ H1).
    destruct (search_from_leftmost _ _ _ _ _ H1) as [a [Ea [Es [M _]]]].
    apply stmt_match in M as [sel [body [Em [Hsel Hb]]]].
    change (lower (str "SELECT")) with (str "select") in Hsel.
    exists a, sel, body, (str ";" ++ m_post mo).
    split; [rewrite Es, Em, <- !app_assoc; reflexivity|].
    split; [exact Hsel|]. split; [exact Hb|].
    assert (W : well_formed (m_text mo)).
    { rewrite Em. split; [now apply Extract.startswith_select|].
      rewrite app_assoc. apply endswith_app. }
    rewrite (Extract.strip_well_formed _ W). destruct W as [Ws We].
    destruct (Extract.finish_candidate (m_text mo) Ws) as [F1 _].
    + rewrite Em, app_assoc. now apply rstrip_snoc.
    + cbv zeta in F1. rewrite F1, We, andb_false_r, Em.
      now rewrite <- !app_assoc.
  - destruct (search true SELECT_REST (strip_fences raw)) as [mo|] eqn:H2;
      [|now left].
    right. rewrite (search_group _ _ _ _ _ H2).
    destruct (search_from_leftmost _ _ _ _ _ H2) as [a [Ea [Es [M _]]]].
    pose proof (search_sound _ _ _ _ H2) as [_ L].
    apply Extract.lang_select in L as [sel [t [Em [Hsel _]]]].
    assert (Ht : ~ In ";"%char t).
    { intros Hin. apply in_split in Hin as [u [v Et]].
      pose proof (search_from_none _ _ _ _ H1 a _ Es) as N.
      revert N. rewrite Em, Et.
      replace ((sel ++ u ++ ";"%char :: v) ++ m_post mo)
        with ((sel ++ u ++ str ";") ++ v ++ m_post mo)
        by (now rewrite <- !app_assoc).
      apply match_at_complete. constructor. constructor.
      - now apply lang_lits_ic.
      - constructor; [constructor; apply Extract.any_all|].
        constructor. reflexivity. }
    destruct (rstrip_prefix t) as [u Eu].
    assert (Hr : ~ In ";"%char (rstrip t)).
    { intros Hin. apply Ht. rewrite Eu. apply in_or_app. now left. }
    exists a, sel, (rstrip t), (u ++ m_post mo).
    split; [rewrite Es, Em, <- !app_assoc, (app_assoc (rstrip t)), <- Eu;
            reflexivity|].
    split; [exact Hsel|]. split; [exact Hr|].
    rewrite Em, (Extract.strip_select _ _ Hsel).
    destruct (Extract.finish_candidate (sel ++ rstrip t)) as [F1 _].
    + now apply Extract.startswith_select.
    + now rewrite (Extract.rstrip_select _ _ Hsel), Extract.rstrip_idem.
    + cbv zeta in F1. rewrite F1.
      destruct (endswith (sel ++ rstrip t) (str ";")) eqn:He.
      * exfalso. apply endswith_in in He. apply in_app_or in He as [He|He].
        -- now apply (select_no_semicolon sel).
        -- now apply Hr.
      * destruct (Extract.select_head _ Hsel) as [c0 [sel' [-> _]]].
        reflexivity.
Qed.

Lemma backticks_last w' : backticks <> w' ++ str ";".
Proof.
  intros E. apply (f_equal (@rev ascii)) in E.
  rewrite rev_app_distr in E. discriminate E.
Qed.

Lemma extract_sql_fence_free raw : contains backticks (extract_sql raw) = false.
Proof.
  destruct (extract_sql_spec raw) as [->|[pre [sel [b [post [E [_ [_ ->]]]]]]]];
    [reflexivity|].
  destruct (contains backticks ((sel ++ b) ++ str ";")) eqn:C; [|reflexivity].
  apply contains_snoc_other in C; [|apply backticks_last].
  apply (contains_sub _ pre _ post) in C. rewrite <- E in C.
  now rewrite strip_fences_clean in C.
Qed.

End ExtractMore.

(** X4.  After the two [re.sub] calls no fence marker is left, and so the
    extracted statement never contains three backticks in a row, whatever
    the raw text was. *)
Theorem extract_sql_has_no_fence (raw : pystr) :
  contains backticks (strip_fences raw) = false
  /\ contains backticks (extract_sql raw) = false.
Proof.
  split; [apply ExtractMore.strip_fences_clean
         |apply ExtractMore.extract_sql_fence_free].
Qed.

(** X5.  A non-empty result holds exactly one semicolon, its last character,
    and carries no white space at either end: the extractor never returns
    two statements. *)
Theorem extract_sql_single_statement_out (raw : pystr) :
  extract_sql raw <> [] ->
  count_occ ascii_dec (extract_sql raw) ";"%char = 1
  /\ endswith (extract_sql raw) (str ";") = true
  /\ strip (extract_sql raw) = extract_sql raw.
Proof.
  intros N.
  destruct (ExtractMore.extract_sql_spec raw)
    as [E|[pre [sel [b [post [_ [Hsel [Hb E]]]]]]]]; [contradiction|].
  rewrite E. split; [|split].
  - rewrite !count_occ_app. simpl.
    destruct (ascii_dec ";" ";") as [_|X]; [|now elim X].
    pose proof (ExtractMore.select_no_semicolon _ Hsel) as Hs.
    apply (count_occ_not_In ascii_dec) in Hs, Hb. lia.
  - apply endswith_app.
  - apply Extract.strip_well_formed. split; [|apply endswith_app].
    rewrite <- !app_assoc. now apply Extract.startswith_select.
Qed.

(** X6.  The extractor is idempotent: run on its own result it returns that
    result. *)
Theorem extract_sql_idempotent (raw : pystr) :
  extract_sql (extract_sql raw) = extract_sql raw.
Proof.
  pose proof (ExtractMore.extract_sql_fence_free raw) as F.
  destruct (ExtractMore.extract_sql_spec raw)
    as [->|[pre [sel [b [post [_ [Hsel [Hb E]]]]]]]]; [reflexivity|].
  rewrite E in F |- *.
  apply Extract.extract_sql_single_statement.
  - rewrite <- !app_assoc. now apply Extract.startswith_select.
  - exact F.
  - intros Hin. apply in_app_or in Hin as [Hin|Hin]; [|now apply Hb].
    now apply (ExtractMore.select_no_semicolon sel).
Qed.



(** ** The first statement of a response *)

Module FirstStatement.
Import Re ReFacts ReMore.

Lemma first_sep_unique {A} (c : A) : forall a a' p p',
  a ++ c :: p = a' ++ c :: p' -> ~ In c a -> ~ In c a' -> a = a' /\ p = p'.
Proof.
  induction a as [|x a IH]; intros a' p p' E Ha Ha'.
  - destruct a' as [|y a']; simpl in E.
    + injection E as ->. auto.
    + injection E as <- _. elim Ha'. now left.
  - destruct a' as [|y a']; simpl in E.
    + injection E as -> _. elim Ha. now left.
    + injection E as <- E.
      destruct (IH a' p p' E) as [-> ->].
      * intros H. apply Ha. now right.
      * intros H. apply Ha'. now right.
      * auto.
Qed.

Lemma extract_sql_of_stmt raw mo :
  search true SELECT_STMT (strip_fences raw) = Some mo ->
  extract_sql raw = m_text mo.
Proof.
  intros H1. unfold extract_sql. rewrite H1, (search_group _ _ _ _ _ H1).
  apply search_sound in H1 as [_ L].
  apply Extract.lang_select in L as [sel [t [Em [Hsel Lt]]]].
  apply Extract.lang_stmt_tail in Lt as [body ->].
  assert (W : well_formed (m_text mo)).
  { rewrite Em. split; [now apply Extract.startswith_select|].
    rewrite app_assoc. apply endswith_app. }
  rewrite (Extract.strip_well_formed _ W). destruct W as [Ws We].
  destruct (Extract.finish_candidate (m_text mo) Ws) as [F1 _].
  - rewrite Em, app_assoc. now apply rstrip_snoc.
  - cbv zeta in F1. now rewrite F1, We, andb_false_r.
Qed.

Lemma select_length sel : lower sel = str "select" -> length sel = 6.
Proof.
  intros H. apply (f_equal (@length ascii)) in H.
  unfold lower in H. now rewrite length_map in H.
Qed.

(** An occurrence of [SELECT] that starts inside [a2], in front of another
    occurrence [sel], lies within [a2] and the first five letters of [sel]. *)
Lemma select_before a2 sel sel' tl tl' :
  a2 <> [] -> lower sel = str "select" -> lower sel' = str "select" ->
  a2 ++ sel ++ tl = sel' ++ tl' ->
  exists z, a2 ++ removelast sel = sel' ++ z.
Proof.
  intros Ha Hs Hs' E.
  pose proof (select_length _ Hs) as Ls.
  pose proof (select_length _ Hs') as Ls'.
  assert (Nz : sel <> []) by (intros ->; discriminate).
  rewrite (app_removelast_last " "%char Nz) in E.
  rewrite <- !app_assoc, (app_assoc a2) in E.
  assert (Lr : length (removelast sel) = 5).
  { rewrite (app_removelast_last " "%char Nz), length_app in Ls.
    simpl in Ls. lia. }
  apply app_eq_app in E as [l [[E1 E2]|[E1 E2]]].
  - now exists l.
  - exists []. rewrite app_nil_r.
    assert (Hl : l = []).
    { pose proof (f_equal (@length ascii) E1) as L.
      rewrite !length_app in L. destruct a2; [now elim Ha|].
      destruct l; [reflexivity|]. simpl in L. lia. }
    subst l. now rewrite app_nil_r in E1.
Qed.

(** The match of the first pattern on a text that begins with a statement. *)
Lemma stmt_at_start sel body post :
  lower sel = str "select" -> ~ In ";"%char body ->
  exists caps,
    match_at true SELECT_STMT (sel ++ body ++ str ";" ++ post)
    = Some (sel ++ body ++ str ";", post, caps).
Proof.
  intros Hsel Hb.
  assert (L : lang true SELECT_STMT (sel ++ body ++ str ";")).
  { constructor. constructor; [now apply lang_lits_ic|].
    constructor; [constructor; apply Extract.any_all|].
    constructor. reflexivity. }
  pose proof (match_at_complete true SELECT_STMT _ post L) as N.
  rewrite <- !app_assoc in N.
  destruct (match_at true SELECT_STMT (sel ++ body ++ str ";" ++ post))
    as [[[m rest] caps]|] eqn:M; [|contradiction].
  exists caps. pose proof (match_at_sound _ _ _ _ _ _ M) as [E _].
  apply stmt_match in M as [sel1 [body1 [Em [Hsel1 Hb1]]]].
  change (lower (str "SELECT")) with (str "select") in Hsel1.
  rewrite Em in E.
  replace (sel ++ body ++ str ";" ++ post)
    with ((sel ++ body) ++ ";"%char :: post) in E
    by (now rewrite <- !app_assoc).
  replace ((sel1 ++ body1 ++ str ";") ++ rest)
    with ((sel1 ++ body1) ++ ";"%char :: rest) in E
    by (now rewrite <- !app_assoc).
  apply first_sep_unique in E as [E1 E2].
  - rewrite Em, E2. f_equal. f_equal. now rewrite app_assoc, <- E1, <- app_assoc.
  - intros Hin. apply in_app_or in Hin as [Hin|Hin]; [|now apply Hb].
    now apply (ExtractMore.select_no_semicolon sel).
  - intros Hin. apply in_app_or in Hin as [Hin|Hin]; [|now apply Hb1].
    now apply (ExtractMore.select_no_semicolon sel1).
Qed.

End FirstStatement.


(** ** The top-N detector, continued *)

Module Detect.
Import Re ReFacts ReMore.

Lemma space_not_digit c : isspace c = true -> isdecimal c = false.
Proof. destruct c as [[] [] [] [] [] [] [] []]; vm_compute; congruence. Qed.

Lemma digit_value_range c : isdecimal c = true -> (0 <= digit_value c <= 9)%Z.
Proof.
  intros H.
  assert (B : ((0 <=? digit_value c) && (digit_value c <=? 9))%Z = true).
  { revert H. destruct c as [[] [] [] [] [] [] [] []]; vm_compute; congruence. }
  apply andb_true_iff in B as [B1 B2].
  apply Z.leb_le in B1, B2. lia.
Qed.

Lemma fold_digits_nonneg ds : forall acc,
  (0 <= acc)%Z -> forallb isdecimal ds = true ->
  (0 <= fold_left (fun a c => 10 * a + digit_value c) ds acc)%Z.
Proof.
  induction ds as [|c ds IH]; intros acc Ha Hd; cbn [fold_left]; [exact Ha|].
  cbn [forallb] in Hd. apply andb_true_iff in Hd as [Hc Hd].
  apply IH; [|exact Hd]. pose proof (digit_value_range c Hc). lia.
Qed.

Lemma int_of_digits_nonneg ds :
  forallb isdecimal ds = true -> (0 <= int_of_digits ds)%Z.
Proof. apply fold_digits_nonneg. lia. Qed.

Lemma lang_two_words i a b m :
  lang false (Grp i (Alt (lits a) (lits b))) m -> m = a \/ m = b.
Proof.
  inversion 1 as [| | | | | | |? ? ? L]; subst.
  inversion L as [| | | |? ? ? L1|? ? ? L1| |]; subst;
    apply lang_lits_cs in L1; auto.
Qed.

(** [p+(q+)] with the second run captured, in front of a continuation that
    accepts anything: both runs are non-empty and the second is maximal. *)
Lemma plus_then_group {A} ic p q i s caps (k : cont A) x :
  (forall s' c', exists y, k s' c' = Some y) ->
  rx_match ic (Seq (Plus true p) (Grp i (Plus true q))) s caps k = Some x ->
  exists w ds rest,
    s = w ++ ds ++ rest /\ w <> [] /\ forallb p w = true
    /\ ds <> [] /\ forallb q ds = true /\ not_headed_by q rest = true
    /\ k rest ((i, ds) :: caps) = Some x.
Proof.
  intros Hk H. unfold Plus in H. cbn [rx_match] in H.
  destruct s as [|a s1]; [discriminate|].
  destruct (p a) eqn:Ha; [|discriminate].
  apply star_greedy_sound in H as [m2 [rest2 [E2 [Hm2 H]]]].
  destruct rest2 as [|d s4]; [discriminate|].
  destruct (q d) eqn:Hd; [|discriminate].
  destruct (span q s4) as [m3 [rest3 [E3 [Hm3 Hr3]]]]. subst s4.
  destruct (Hk rest3
              ((i, firstn (length (d :: m3 ++ rest3) - length rest3)
                          (d :: m3 ++ rest3)) :: caps)) as [y Hy].
  match type of H with
  | star_greedy _ _ _ ?K = _ =>
      rewrite (star_greedy_exact q m3 rest3 caps K y Hm3 Hr3 Hy) in H
  end.
  change (d :: m3 ++ rest3) with ((d :: m3) ++ rest3) in Hy.
  rewrite firstn_matched in Hy.
  exists (a :: m2), (d :: m3), rest3. subst s1.
  repeat apply conj; try discriminate.
  - reflexivity.
  - simpl. now rewrite Ha.
  - simpl. now rewrite Hd.
  - exact Hr3.
  - congruence.
Qed.

(** A match of the detector pattern, read back. *)
Lemma top_n_match s m rest caps :
  match_at false TOP_N s = Some (m, rest, caps) ->
  exists kw w ds caps',
    m = kw ++ w ++ ds /\ (kw = str "top" \/ kw = str "first")
    /\ w <> [] /\ forallb isspace w = true
    /\ ds <> [] /\ forallb isdecimal ds = true
    /\ not_headed_by isdecimal rest = true
    /\ caps = (2, ds) :: caps'.
Proof.
  unfold match_at. intros H.
  pose proof
    (rx_match_sound _ false
       (Grp 1 (Alt (lits (str "top")) (lits (str "first")))) s []
       (fun s' caps' =>
          rx_match false (Seq (Plus true ws) (Grp 2 (Plus true digit))) s' caps'
            (fun rest caps =>
               Some (firstn (length s - length rest) s, rest, caps)))
       (m, rest, caps) H) as [kw [rest1 [caps1 [E1 [L1 H1]]]]].
  cbv beta in H1.
  apply plus_then_group in H1
      as [w [ds [rest' [E2 [Nw [Hw [Nd [Hd [Hr Hk]]]]]]]]];
    [|intros s' c'; eexists; reflexivity].
  injection Hk as Hm Hrest Hcaps. subst rest'.
  exists kw, w, ds, caps1. apply lang_two_words in L1.
  repeat apply conj; auto.
  rewrite <- Hm, E1, E2.
  replace (kw ++ w ++ ds ++ rest) with ((kw ++ w ++ ds) ++ rest)
    by (now rewrite <- !app_assoc).
  apply firstn_matched.
Qed.

(** The first run of [q]-characters of a text is determined by the text. *)
Lemma run_unique (q : ascii -> bool) : forall d d' P P',
  forallb q d = true -> forallb q d' = true ->
  not_headed_by q P = true -> not_headed_by q P' = true ->
  d ++ P = d' ++ P' -> d = d'.
Proof.
  induction d as [|x d IH]; intros d' P P' Hd Hd' HP HP' E.
  - destruct d' as [|y d']; [reflexivity|]. simpl in E. subst P.
    simpl in HP, Hd'. apply andb_true_iff in Hd' as [Hy _].
    rewrite Hy in HP. discriminate.
  - destruct d' as [|y d']; simpl in E.
    + subst P'. simpl in HP', Hd. apply andb_true_iff in Hd as [Hx _].
      rewrite Hx in HP'. discriminate.
    + injection E as <- E. simpl in Hd, Hd'.
      apply andb_true_iff in Hd as [_ Hd]. apply andb_true_iff in Hd' as [_ Hd'].
      f_equal. exact (IH d' P P' Hd Hd' HP HP' E).
Qed.

Lemma first_run_unique (q : ascii -> bool) : forall a a' d d' P P',
  forallb (fun c => negb (q c)) a = true ->
  forallb (fun c => negb (q c)) a' = true ->
  d <> [] -> d' <> [] -> forallb q d = true -> forallb q d' = true ->
  not_headed_by q P = true -> not_headed_by q P' = true ->
  a ++ d ++ P = a' ++ d' ++ P' -> d = d'.
Proof.
  induction a as [|x a IH]; intros a' d d' P P' Ha Ha' Nd Nd' Hd Hd' HP HP' E.
  - destruct a' as [|y a'].
    + exact (run_unique q d d' P P' Hd Hd' HP HP' E).
    + exfalso. destruct d as [|x d]; [now elim Nd|]. simpl in E.
      injection E as -> _. simpl in Hd, Ha'.
      apply andb_true_iff in Hd as [Hx _]. now rewrite Hx in Ha'.
  - destruct a' as [|y a'].
    + exfalso. destruct d' as [|y d']; [now elim Nd'|]. simpl in E.
      injection E as -> _. simpl in Hd', Ha.
      apply andb_true_iff in Hd' as [Hy _]. now rewrite Hy in Ha.
    + simpl in E. injection E as _ E. simpl in Ha, Ha'.
      apply andb_true_iff in Ha as [_ Ha]. apply andb_true_iff in Ha' as [_ Ha'].
      exact (IH a' d d' P P' Ha Ha' Nd Nd' Hd Hd' HP HP' E).
Qed.

Lemma keyword_digit_free kw :
  kw = str "top" \/ kw = str "first" ->
  forallb (fun c => negb (isdecimal c)) kw = true.
Proof. intros [->| ->]; reflexivity. Qed.

Lemma spaces_digit_free w :
  forallb isspace w = true -> forallb (fun c => negb (isdecimal c)) w = true.
Proof.
  induction w as [|c w IH]; simpl; [reflexivity|].
  intros H. apply andb_true_iff in H as [Hc Hw].
  now rewrite (space_not_digit c Hc), IH.
Qed.

End Detect.

(** X10.  A detected N is read from the question: the lower-cased question
    contains [top] or [first], then white space, then a run of decimal
    digits whose value is N.  So N is never negative, and a question without
    digits, or without either word, is never taken for a top-N request. *)
Theorem detect_top_n_sound (q : pystr) (n : Z) :
  detect_top_n q = Some n ->
  exists kw w ds,
    (kw = str "top" \/ kw = str "first")
    /\ w <> [] /\ forallb isspace w = true
    /\ ds <> [] /\ forallb isdecimal ds = true
    /\ contains (kw ++ w ++ ds) (lower q) = true
    /\ n = int_of_digits ds /\ (0 <= n)%Z.
Proof.
  unfold detect_top_n. intros H.
  destruct (Re.search false TOP_N (strip (lower q))) as [mo|] eqn:S;
    [|discriminate].
  assert (Hn : n = int_of_digits (Re.group mo 2)) by congruence. clear H.
  destruct (ReMore.search_from_leftmost _ _ _ _ _ S) as [a [_ [Es [M _]]]].
  apply Detect.top_n_match in M
      as [kw [w [ds [caps' [Em [Hkw [Nw [Hw [Nd [Hd [_ Hc]]]]]]]]]]].
  exists kw, w, ds.
  assert (G : Re.group mo 2 = ds) by (unfold Re.group; now rewrite Hc).
  repeat apply conj; auto.
  - destruct (ExtractMore.strip_substring (lower q)) as [l [r El]].
    rewrite El, Es, Em. apply ExtractMore.contains_sub.
    apply ExtractMore.contains_sub.
    rewrite <- (app_nil_r (kw ++ w ++ ds)) at 2. apply Prompt.contains_prefix.
  - now rewrite Hn, G.
  - rewrite Hn, G. now apply Detect.int_of_digits_nonneg.
Qed.


(** ** The handlers, continued *)

Module Handlers.

Lemma stub_well_formed tbl : well_formed (fallback_stub tbl).
Proof.
  unfold fallback_stub. split.
  - change (str "SELECT * FROM `") with (str "SELECT" ++ str " * FROM `").
    rewrite <- app_assoc. now apply Extract.startswith_select.
  - change (str "` LIMIT 100;") with (str "` LIMIT 100" ++ str ";").
    rewrite !app_assoc. apply endswith_app.
Qed.

Lemma direct_well_formed t tail :
  well_formed (str "SELECT * FROM `" ++ t ++ str "` LIMIT " ++ tail ++ str ";").
Proof.
  split.
  - change (str "SELECT * FROM `") with (str "SELECT" ++ str " * FROM `").
    rewrite <- app_assoc. now apply Extract.startswith_select.
  - rewrite !app_assoc. apply endswith_app.
Qed.

(** One call of [call_llm]: the sample rows are fetched, one prompt is
    posted, the session is left alone. *)
Lemma call_llm_run E tbl cols q creds err st :
  let prompt :=
    build_prompt (format_table tbl) cols q (sample_of E creds tbl 3) err in
  exists raw sql,
    call_llm E tbl cols q creds err st
    = ((raw, sql), st, [GetSampleData creds tbl 3; LlmPost prompt])
    /\ (sql = [] \/ well_formed sql)
    /\ (forall e, post E prompt = inl e ->
          raw = str "[LLM ERROR: " ++ e ++ str "]" /\ sql = [])
    /\ (forall data, post E prompt = inr data -> sql = extract_sql raw).
Proof.
  intros prompt. unfold call_llm, get_sample_data, bind, emit, ret. simpl.
  fold prompt. destruct (post E prompt) as [e|data]; simpl.
  - eexists. eexists. split; [reflexivity|]. split; [now left|].
    split; [intros e' [= <-]; auto|discriminate].
  - eexists. eexists. split; [reflexivity|].
    split; [apply Extract.extract_sql_shape|].
    split; [discriminate|reflexivity].
Qed.

Lemma on_generate_blank E q st :
  truthy (strip q) = false ->
  on_generate E q st = (tt, st, [Display EnterQuestion]).
Proof. intros H. unfold on_generate. now rewrite H. Qed.

Lemma on_generate_direct E q st n t :
  detect_top_n q = Some n -> n <> 0%Z ->
  selected_table st = Some t -> t <> [] ->
  let sql := str "SELECT * FROM `" ++ t ++ str "` LIMIT " ++ format_int n
                 ++ str ";" in
  on_generate E q st
  = (tt,
     MkSession (db_credentials st) (Some t) (pretty_sql E sql) BYPASS_NOTE
               (pretty_sql E sql) [] q,
     [Display (DirectSql (Some n))]).
Proof.
  intros Hd Hn Ht Nt sql. unfold on_generate.
  rewrite (Generate.detect_needs_text _ _ Hd), Hd.
  destruct st as [creds tbl g r p e lq]. simpl in Ht. subst tbl.
  unfold bind, modify, get, emit, use_sql. simpl.
  apply Z.eqb_neq in Hn. rewrite Hn.
  destruct t as [|c t]; [now elim Nt|]. reflexivity.
Qed.

Lemma on_generate_llm E q st :
  truthy (strip q) = true ->
  int_truthy (detect_top_n q) && table_truthy (selected_table st) = false ->
  let tbl := selected_table st in
  let creds := db_credentials st in
  let prompt :=
    build_prompt (format_table tbl) (columns_of E creds tbl) q
                 (sample_of E creds tbl 3) [] in
  exists raw sql,
    (sql = [] \/ well_formed sql)
    /\ (forall e, post E prompt = inl e ->
          raw = str "[LLM ERROR: " ++ e ++ str "]" /\ sql = [])
    /\ (forall data, post E prompt = inr data -> sql = extract_sql raw)
    /\ on_generate E q st
       = (tt,
          MkSession creds tbl
            (pretty_sql E (if truthy sql then sql else fallback_stub tbl)) raw
            (pretty_sql E (if truthy sql then sql else fallback_stub tbl)) [] q,
          [GetColumns creds tbl; GetSampleData creds tbl 3; LlmPost prompt;
           Display (if truthy sql then SqlGenerated else FallbackUsed)]).
Proof.
  intros Hq Hfast tbl creds prompt. unfold on_generate. rewrite Hq.
  destruct st as [creds0 tbl0 g r p e lq]. simpl in tbl, creds, Hfast.
  subst tbl creds.
  unfold bind at 1 2 3. unfold modify at 1 2. unfold get at 1. simpl.
  rewrite Hfast. unfold get_columns, bind at 1 2. unfold emit at 1. unfold ret at 1.
  simpl.
  destruct (call_llm_run E tbl0 (columns_of E creds0 tbl0) q creds0 []
              (set_last_error []
                 (set_last_question q (MkSession creds0 tbl0 g r p e lq))))
    as [raw [sql [Hrun [Hshape [Herr Hok]]]]].
  exists raw, sql. split; [exact Hshape|]. split; [exact Herr|].
  split; [exact Hok|].
  unfold bind at 1. rewrite Hrun.
  unfold bind, modify, emit, use_sql. simpl.
  destruct sql as [|c s]; simpl; [reflexivity|].
  destruct Hshape as [Hs|W]; [discriminate|].
  rewrite (Extract.strip_well_formed _ W). reflexivity.
Qed.

End Handlers.

(** X12.  The fast path in general: whenever the detector finds a number
    other than 0 and a table is selected, the handler stores the
    pretty-printed [SELECT * FROM `table` LIMIT N;] in both SQL fields,
    stores the bypass note, records the question, clears the last error and
    makes no database or generation call. *)
Theorem generate_fast_path (E : externals) (st : session) (q t : pystr) (n : Z) :
  detect_top_n q = Some n -> n <> 0%Z ->
  selected_table st = Some t -> t <> [] ->
  let sql := str "SELECT * FROM `" ++ t ++ str "` LIMIT " ++ format_int n
                 ++ str ";" in
  let st' := final_state (on_generate E q) st in
  trace (on_generate E q) st = [Display (DirectSql (Some n))]
  /\ generated_sql st' = pretty_sql E sql
  /\ sql_preview st' = pretty_sql E sql
  /\ last_raw_llm st' = BYPASS_NOTE
  /\ last_question st' = q
  /\ last_error st' = [].
Proof.
  intros Hd Hn Ht Nt sql st'. subst st'. unfold final_state, trace.
  rewrite (Handlers.on_generate_direct E q st n t Hd Hn Ht Nt).
  simpl. repeat split.
Qed.


(** X14.  The generation path and its fallback.  Off the fast path, a
    failing request leaves the bracketed error text as the raw output and
    the default [LIMIT 100] query as the SQL; a response without any
    [SELECT] also gives the default query; any other response gives the
    statement extracted from the raw output. *)
Theorem generate_llm_outcome (E : externals) (st : session) (q : pystr) :
  truthy (strip q) = true ->
  int_truthy (detect_top_n q) && table_truthy (selected_table st) = false ->
  let tbl := selected_table st in
  let creds := db_credentials st in
  let prompt :=
    build_prompt (format_table tbl) (columns_of E creds tbl) q
                 (sample_of E creds tbl 3) [] in
  let st' := final_state (on_generate E q) st in
  llm_calls (trace (on_generate E q) st) = [prompt]
  /\ (forall e, post E prompt = inl e ->
        last_raw_llm st' = str "[LLM ERROR: " ++ e ++ str "]"
        /\ generated_sql st' = pretty_sql E (fallback_stub tbl))
  /\ (forall data, post E prompt = inr data ->
        generated_sql st'
        = pretty_sql E (if truthy (extract_sql (last_raw_llm st'))
                        then extract_sql (last_raw_llm st')
                        else fallback_stub tbl)).
Proof.
  intros Hq Hfast tbl creds prompt st'. subst st'. unfold final_state, trace.
  destruct (Handlers.on_generate_llm E q st Hq Hfast)
    as [raw [sql [_ [Herr [Hok Hrun]]]]].
  fold tbl creds prompt in Herr, Hok, Hrun. rewrite Hrun. simpl.
  split; [reflexivity|]. split.
  - intros e He. destruct (Herr e He) as [-> ->]. auto.
  - intros data Hdata. now rewrite <- (Hok data Hdata).
Qed.

(** ** Run and retry *)

Module RunRetry.

Lemma on_run_blocked E editor st reason :
  safe_sql_check (strip editor) = (false, reason) ->
  on_run E editor st
  = (tt, set_last_error reason st, [Display (Blocked reason)]).
Proof. intros H. unfold on_run. rewrite H. reflexivity. Qed.

Lemma on_run_passed E editor st reason :
  safe_sql_check (strip editor) = (true, reason) ->
  on_run E editor st
  = match query E (db_credentials st) (strip editor) with
    | inl df =>
        (tt, set_last_error [] st,
         [RunSql (db_credentials st) (strip editor);
          Display (RowsReturned (length df)); Display (ShowTable df)])
    | inr ex =>
        if truthy ex then
          (tt, set_last_error ex st,
           [RunSql (db_credentials st) (strip editor);
            Display (ExecutionError ex)])
        else
          (tt, st,
           [RunSql (db_credentials st) (strip editor); Display Uncaught])
    end.
Proof.
  intros H. unfold on_run. rewrite H. simpl.
  unfold run_sql, bind, emit, get, ret, modify. simpl.
  destruct (query E (db_credentials st) (strip editor)) as [df|ex]; simpl.
  - reflexivity.
  - destruct (truthy ex); reflexivity.
Qed.

Lemma rejection_has_reason sql :
  fst (safe_sql_check sql) = false -> snd (safe_sql_check sql) <> [].
Proof.
  destruct (Gate.gate_cases sql)
    as [[_ E]|[[_ [_ E]]|[[_ [_ [w [_ E]]]]|[_ [_ [_ E]]]]]];
    rewrite E; simpl; intros H; discriminate.
Qed.

Lemma on_retry_skip E st :
  truthy (last_error st) && truthy (last_question st) = false ->
  on_retry E st = (RetrySkipped, st, []).
Proof.
  intros H. unfold on_retry, bind, get. simpl. rewrite H. reflexivity.
Qed.

Lemma on_retry_run E st :
  truthy (last_error st) && truthy (last_question st) = true ->
  let tbl := selected_table st in
  let creds := db_credentials st in
  let prompt :=
    build_prompt (format_table tbl) (columns_of E creds tbl) (last_question st)
                 (sample_of E creds tbl 3) (last_error st) in
  exists raw sql,
    (sql = [] \/ well_formed sql)
    /\ (forall e, post E prompt = inl e ->
          raw = str "[LLM ERROR: " ++ e ++ str "]" /\ sql = [])
    /\ (forall data, post E prompt = inr data -> sql = extract_sql raw)
    /\ on_retry E st
       = (if truthy sql then RetryStored else RetryNoSql,
          MkSession creds tbl
            (if truthy sql then pretty_sql E sql else generated_sql st) raw
            (if truthy sql then pretty_sql E sql else sql_preview st)
            (last_error st) (last_question st),
          [GetColumns creds tbl; GetSampleData creds tbl 3; LlmPost prompt]).
Proof.
  intros H tbl creds prompt.
  destruct (Handlers.call_llm_run E tbl (columns_of E creds tbl)
              (last_question st) creds (last_error st) st)
    as [raw [sql [Hrun [Hshape [Herr Hok]]]]].
  exists raw, sql. split; [exact Hshape|]. split; [exact Herr|].
  split; [exact Hok|].
  unfold on_retry. unfold bind at 1. unfold get at 1. simpl. rewrite H.
  unfold get_columns, bind at 1 2. unfold emit at 1. unfold ret at 1. simpl.
  fold tbl creds. unfold bind at 1. rewrite Hrun.
  unfold bind, modify, emit, ret, use_sql. simpl.
  destruct st as [creds0 tbl0 g r p e lq]. simpl in *.
  destruct sql as [|c s]; simpl; [reflexivity|].
  destruct Hshape as [Hs|W]; [discriminate|].
  rewrite (Extract.strip_well_formed _ W). reflexivity.
Qed.

Lemma prompt_has_error table columns question sample_data err :
  truthy err = true ->
  contains (str "PREVIOUS ATTEMPT FAILED WITH ERROR:" ++ nl ++ err ++ nl)
           (build_prompt table columns question sample_data err) = true.
Proof.
  intros He. rewrite Prompt.build_prompt_unfold, He.
  apply Prompt.contains_app_r, Prompt.contains_app_l.
  do 8 apply Prompt.contains_app_r. apply Prompt.contains_app_l.
  apply Prompt.contains_app_r. Prompt.chain_prefix.
Qed.

Lemma prompt_has_question table columns question sample_data err :
  contains (str "USER QUESTION: " ++ question ++ nl)
           (build_prompt table columns question sample_data err) = true.
Proof.
  rewrite Prompt.build_prompt_unfold.
  apply Prompt.contains_app_r, Prompt.contains_app_l.
  do 10 apply Prompt.contains_app_r. Prompt.chain_prefix.
Qed.

End RunRetry.

(** X15.  What "Run Query" leaves behind.  Only [last_error] can change.
    A blocked statement is not executed and the (non-empty) reason of the
    gate becomes the last error.  An accepted statement is executed once;
    on success the last error is cleared, on failure with a non-empty error
    text that text becomes the last error.  A failure whose error text is
    empty is taken for a success: nothing is recorded and the handler ends
    in an uncaught exception. *)
Theorem run_outcome (E : externals) (st : session) (editor : pystr) :
  let sql := strip editor in
  let st' := final_state (on_run E editor) st in
  let tr := trace (on_run E editor) st in
  (generated_sql st' = generated_sql st /\ sql_preview st' = sql_preview st
   /\ last_question st' = last_question st /\ last_raw_llm st' = last_raw_llm st
   /\ selected_table st' = selected_table st
   /\ db_credentials st' = db_credentials st)
  /\ (fst (safe_sql_check sql) = false ->
      last_error st' = snd (safe_sql_check sql) /\ last_error st' <> []
      /\ executed tr = [])
  /\ (fst (safe_sql_check sql) = true ->
      executed tr = [sql]
      /\ (forall df, query E (db_credentials st) sql = inl df ->
            last_error st' = [])
      /\ (forall ex, query E (db_credentials st) sql = inr ex -> ex <> [] ->
            last_error st' = ex)
      /\ (forall ex, query E (db_credentials st) sql = inr ex -> ex = [] ->
            last_error st' = last_error st /\ In (Display Uncaught) tr)).
Proof.
  intros sql st' tr. subst sql st' tr. unfold final_state, trace.
  destruct (safe_sql_check (strip editor)) as [ok reason] eqn:G.
  destruct ok.
  - rewrite (RunRetry.on_run_passed E editor st reason G).
    destruct (query E (db_credentials st) (strip editor)) as [df|ex] eqn:Q.
    + simpl. split; [repeat split|]. split; [discriminate|]. intros _.
      split; [reflexivity|]. split; [auto|]. split; discriminate.
    + destruct ex as [|c ex]; simpl.
      * split; [repeat split|]. split; [discriminate|]. intros _.
        split; [reflexivity|]. split; [discriminate|].
        split; [intros ex' [= <-] N; now elim N|].
        intros ex' _ _. split; [reflexivity|]. right. now left.
      * split; [repeat split|]. split; [discriminate|]. intros _.
        split; [reflexivity|]. split; [discriminate|].
        split; [intros ex' [= <-] _; reflexivity|].
        intros ex' [= <-] N. discriminate N.
  - rewrite (RunRetry.on_run_blocked E editor st reason G). simpl.
    split; [repeat split|]. split; [|discriminate]. intros _.
    split; [reflexivity|]. split; [|reflexivity].
    pose proof (RunRetry.rejection_has_reason (strip editor)) as N.
    rewrite G in N. now apply N.
Qed.

(** X16.  "Retry" does nothing unless both a last error and a last question
    are stored.  When they are, it posts exactly one prompt, built from the
    stored question and the stored error: the prompt carries the error text
    right under the [PREVIOUS ATTEMPT FAILED WITH ERROR:] line and the
    question on the [USER QUESTION:] line.  It executes nothing and leaves
    the stored error and question as they were. *)
Theorem retry_feeds_error_back (E : externals) (st : session) :
  let st' := final_state (on_retry E) st in
  let tr := trace (on_retry E) st in
  (truthy (last_error st) && truthy (last_question st) = false ->
   st' = st /\ tr = [] /\ fst (fst (on_retry E st)) = RetrySkipped)
  /\ (truthy (last_error st) && truthy (last_question st) = true ->
      exists prompt,
        llm_calls tr = [prompt]
        /\ contains (str "PREVIOUS ATTEMPT FAILED WITH ERROR:" ++ nl
                         ++ last_error st ++ nl) prompt = true
        /\ contains (str "USER QUESTION: " ++ last_question st ++ nl) prompt
           = true
        /\ executed tr = []
        /\ last_error st' = last_error st
        /\ last_question st' = last_question st).
Proof.
  intros st' tr. subst st' tr. unfold final_state, trace. split; intros H.
  - rewrite (RunRetry.on_retry_skip E st H). auto.
  - destruct (RunRetry.on_retry_run E st H) as [raw [sql [_ [_ [_ Hrun]]]]].
    rewrite Hrun. simpl. eexists. split; [reflexivity|].
    apply andb_true_iff in H as [He _].
    split; [now apply RunRetry.prompt_has_error|].
    split; [apply RunRetry.prompt_has_question|]. auto.
Qed.

(** X17.  Unlike "Generate", "Retry" has no fallback query: when the request
    fails or the response holds no [SELECT], both SQL fields keep their
    former content (only the raw output changes); when the response holds a
    statement, both fields receive its pretty-printed form. *)
Theorem retry_keeps_sql_without_result (E : externals) (st : session) :
  truthy (last_error st) && truthy (last_question st) = true ->
  let tbl := selected_table st in
  let creds := db_credentials st in
  let prompt :=
    build_prompt (format_table tbl) (columns_of E creds tbl) (last_question st)
                 (sample_of E creds tbl 3) (last_error st) in
  let st' := final_state (on_retry E) st in
  (forall e, post E prompt = inl e ->
     generated_sql st' = generated_sql st /\ sql_preview st' = sql_preview st
     /\ last_raw_llm st' = str "[LLM ERROR: " ++ e ++ str "]"
     /\ fst (fst (on_retry E st)) = RetryNoSql)
  /\ (forall data, post E prompt = inr data ->
        extract_sql (last_raw_llm st') = [] ->
        generated_sql st' = generated_sql st /\ sql_preview st' = sql_preview st
        /\ fst (fst (on_retry E st)) = RetryNoSql)
  /\ (forall data, post E prompt = inr data ->
        extract_sql (last_raw_llm st') <> [] ->
        generated_sql st' = pretty_sql E (extract_sql (last_raw_llm st'))
        /\ sql_preview st' = pretty_sql E (extract_sql (last_raw_llm st'))
        /\ fst (fst (on_retry E st)) = RetryStored).
Proof.
  intros H tbl creds prompt st'. subst st'. unfold final_state.
  destruct (RunRetry.on_retry_run E st H) as [raw [sql [_ [Herr [Hok Hrun]]]]].
  fold tbl creds prompt in Herr, Hok, Hrun. rewrite Hrun. simpl.
  split; [|split].
  - intros e He. destruct (Herr e He) as [-> ->]. auto.
  - intros data Hd Hx. rewrite <- (Hok data Hd) in Hx. subst sql. auto.
  - intros data Hd Hx. rewrite <- (Hok data Hd) in Hx |- *.
    destruct sql; [now elim Hx|]. auto.
Qed.

(** X18.  Run, then retry: when "Run Query" blocks a statement, or runs it
    and the executor fails with a non-empty error text, and a question is
    stored, the next "Retry" posts a prompt that quotes that reason or error
    text under the [PREVIOUS ATTEMPT FAILED WITH ERROR:] line. *)
Theorem run_then_retry (E : externals) (st : session) (editor : pystr) :
  truthy (last_question st) = true ->
  let sql := strip editor in
  let st1 := final_state (on_run E editor) st in
  let fed (text : pystr) :=
    exists prompt,
      llm_calls (trace (on_retry E) st1) = [prompt]
      /\ contains (str "PREVIOUS ATTEMPT FAILED WITH ERROR:" ++ nl
                       ++ text ++ nl) prompt = true in
  (fst (safe_sql_check sql) = false -> fed (snd (safe_sql_check sql)))
  /\ (fst (safe_sql_check sql) = true ->
      forall ex, query E (db_credentials st) sql = inr ex -> ex <> [] -> fed ex).
Proof.
  intros Hq sql st1 fed.
  assert (F : forall text, last_error st1 = text -> text <> [] ->
                last_question st1 = last_question st -> fed text).
  { intros text He Nt Hlq. unfold fed, trace.
    assert (G : truthy (last_error st1) && truthy (last_question st1) = true).
    { rewrite He, Hlq, Hq. destruct text; [now elim Nt|reflexivity]. }
    destruct (RunRetry.on_retry_run E st1 G) as [raw [s [_ [_ [_ Hrun]]]]].
    rewrite Hrun. simpl. eexists. split; [reflexivity|].
    rewrite He. apply RunRetry.prompt_has_error.
    destruct text; [now elim Nt|reflexivity]. }
  subst sql st1. unfold final_state in *.
  destruct (safe_sql_check (strip editor)) as [ok reason] eqn:G.
  destruct ok; (split; [|]); try discriminate.
  - intros _ ex Q Nex. apply F; auto.
    + rewrite (RunRetry.on_run_passed E editor st reason G), Q.
      destruct ex; [now elim Nex|reflexivity].
    + rewrite (RunRetry.on_run_passed E editor st reason G), Q.
      destruct ex; [now elim Nex|reflexivity].
  - intros _. simpl. apply F.
    + now rewrite (RunRetry.on_run_blocked E editor st reason G).
    + pose proof (RunRetry.rejection_has_reason (strip editor)) as N.
      rewrite G in N. now apply N.
    + now rewrite (RunRetry.on_run_blocked E editor st reason G).
Qed.

(** ** Queries the application writes itself *)

Module OwnQueries.

Lemma lower_literal_select_from :
  lower (str "SELECT * FROM `") = str "select * from `".
Proof. reflexivity. Qed.

(** The lower-cased, trimmed form of a query of the shape the application
    writes: it starts with [select] and holds the lower-cased table name. *)
Lemma own_query_normal_form t tail :
  let sql := str "SELECT * FROM `" ++ t ++ str "` LIMIT " ++ tail ++ str ";" in
  strip sql <> []
  /\ startswith (strip (lower sql)) (str "select") = true
  /\ forall w, contains w (lower t) = true ->
               contains w (strip (lower sql)) = true.
Proof.
  intros sql.
  pose proof (Handlers.direct_well_formed t tail) as W. fold sql in W.
  pose proof (Extract.strip_well_formed _ W) as S.
  destruct W as [Ws We].
  split; [|split].
  - rewrite S. intros E. rewrite E in Ws. discriminate.
  - now rewrite strip_lower, S.
  - intros w Hw. rewrite strip_lower, S. unfold sql.
    rewrite !lower_app. now apply Prompt.contains_app_r, Prompt.contains_app_l.
Qed.

End OwnQueries.

(** X19.  A table whose name holds a forbidden keyword (such as
    [updates] or [call_log]) cannot be queried with the statements the
    application writes itself: the fast-path query and the default
    [LIMIT 100] query for that table are both rejected by the gate, for a
    forbidden keyword. *)
Theorem own_queries_blocked_by_table_name (t W : pystr) (n : Z) :
  In W forbidden -> contains W (lower t) = true ->
  let blocked (sql : pystr) :=
    exists V, In V forbidden
      /\ safe_sql_check sql = (false, str "Forbidden keyword '" ++ V ++ str "'.") in
  blocked (str "SELECT * FROM `" ++ t ++ str "` LIMIT " ++ format_int n ++ str ";")
  /\ blocked (fallback_stub (Some t)).
Proof.
  intros HW Hc blocked.
  assert (B : forall tail,
             blocked (str "SELECT * FROM `" ++ t ++ str "` LIMIT " ++ tail
                          ++ str ";")).
  { intros tail. unfold blocked.
    destruct (OwnQueries.own_query_normal_form t tail) as [Nb [Hs Hk]].
    specialize (Hk W Hc).
    destruct (Gate.gate_cases
                (str "SELECT * FROM `" ++ t ++ str "` LIMIT " ++ tail ++ str ";"))
      as [[Hb _]|[[_ [Hsel _]]|[[_ [_ [V [Hf E]]]]|[_ [_ [Hf _]]]]]];
      cbv zeta in *.
    - contradiction.
    - congruence.
    - exists V. split; [now destruct (find_some _ _ Hf)|exact E].
    - rewrite (find_none _ _ Hf W HW) in Hk. discriminate. }
  split; [apply B|]. exact (B (str "100")).
Qed.

Module PromptMore.

Lemma endswith_refl p : endswith p p = true.
Proof. unfold endswith. rewrite <- (app_nil_r (rev p)) at 1. apply startswith_app. Qed.

Lemma endswith_app_r a b p : endswith b p = true -> endswith (a ++ b) p = true.
Proof.
  unfold endswith. intros H. apply startswith_split in H as [t H].
  rewrite rev_app_distr, H, <- app_assoc. apply startswith_app.
Qed.

End PromptMore.

(** X20.  The frame of every prompt: it ends with the [USER QUESTION:] line
    holding the question as given, a blank line and the instruction
    [Generate the MySQL query:], with nothing after it; it carries no white
    space at either end; it holds the column listing, the six few-shot
    pairs, and, when sample rows are given, the sample block. *)
Theorem build_prompt_frame
        (table : pystr) (columns : list (pystr * pystr))
        (question sample_data previous_error : pystr) :
  let prompt := build_prompt table columns question sample_data previous_error in
  endswith prompt (nl ++ str "USER QUESTION: " ++ question ++ nl ++ nl
                      ++ str "Generate the MySQL query:") = true
  /\ strip prompt = prompt
  /\ contains (str "Columns: " ++ cols_detail columns ++ nl) prompt = true
  /\ contains (unlines example_lines) prompt = true
  /\ (truthy sample_data = true ->
      contains (str "Sample Data (first 3 rows):" ++ nl ++ sample_data ++ nl)
               prompt = true).
Proof.
  intros prompt. subst prompt.
  split; [|split; [|split; [|split]]].
  - rewrite Prompt.build_prompt_unfold.
    change (str "Generate the MySQL query:")
      with (str "Generate the MySQL query" ++ [":"%char]).
    rewrite <- !app_assoc.
    do 10 apply PromptMore.endswith_app_r. apply PromptMore.endswith_refl.
  - unfold build_prompt. apply GateMore.strip_idem.
  - rewrite Prompt.build_prompt_unfold.
    apply Prompt.contains_app_r, Prompt.contains_app_l.
    do 3 apply Prompt.contains_app_r. Prompt.chain_prefix.
  - rewrite Prompt.build_prompt_unfold.
    apply Prompt.contains_app_r, Prompt.contains_app_l.
    do 7 apply Prompt.contains_app_r. apply Prompt.contains_prefix.
  - intros Hs. rewrite Prompt.build_prompt_unfold, Hs.
    apply Prompt.contains_app_r, Prompt.contains_app_l.
    do 6 apply Prompt.contains_app_r. apply Prompt.contains_app_l.
    apply Prompt.contains_app_r. apply contains_startswith.
    repeat apply Prompt.startswith_app_app. reflexivity.
Qed.

(** X21.  Connection error messages.  The four driver codes 1045, 1049,
    2003 and 2005 get four different messages, whatever the host, port and
    database are, and each message names its code; every other error,
    also one without a readable code, is passed on as the driver's own
    text. *)
Theorem mysql_error_messages :
  (forall e1 e2 msg1 host1 port1 db1 msg2 host2 port2 db2,
      mapped_errno e1 -> mapped_errno e2 ->
      mysql_error_to_message (Some e1) msg1 host1 port1 db1
      = mysql_error_to_message (Some e2) msg2 host2 port2 db2 ->
      e1 = e2)
  /\ (forall e msg host port db,
        mapped_errno e ->
        contains (str "(" ++ format_int e ++ str ")")
                 (mysql_error_to_message (Some e) msg host port db) = true)
  /\ (forall errno msg host port db,
        (forall e, errno = Some e -> ~ mapped_errno e) ->
        mysql_error_to_message errno msg host port db = msg).
Proof.
  split; [|split].
  - intros e1 e2 msg1 host1 port1 db1 msg2 host2 port2 db2 H1 H2 E.
    destruct H1 as [->|[->|[->| ->]]]; destruct H2 as [->|[->|[->| ->]]];
      try reflexivity; exfalso; cbn in E; discriminate E.
  - intros e msg host port db [->|[->|[->| ->]]].
    + reflexivity.
    + cbn -[contains]. apply Prompt.contains_app_r. reflexivity.
    + cbn -[contains]. do 2 apply Prompt.contains_app_r. reflexivity.
    + cbn -[contains]. apply Prompt.contains_app_r. reflexivity.
  - intros errno msg host port db H. unfold mysql_error_to_message.
    destruct errno as [e|]; [|reflexivity]. specialize (H e eq_refl).
    unfold errno_is.
    destruct (Z.eqb_spec e 1045); [elim H; unfold mapped_errno; auto|].
    destruct (Z.eqb_spec e 1049); [elim H; unfold mapped_errno; auto|].
    destruct (Z.eqb_spec e 2003); [elim H; unfold mapped_errno; auto|].
    destruct (Z.eqb_spec e 2005); [elim H; unfold mapped_errno; auto|].
    reflexivity.
Qed.

(** ** Unwrapping a fenced block *)

Module Fences.
Import Re ReFacts ReMore.

Lemma rx_lits_exact {A} w s caps (k : cont A) :
  rx_match false (lits w) (w ++ s) caps k = k s caps.
Proof.
  induction w as [|c w IH]; [reflexivity|].
  cbn [lits rx_match app]. unfold chr_match. now rewrite Ascii.eqb_refl.
Qed.

(** A fence marker with the white space after it, matched in full. *)
Lemma marker_match_exact w sp rest :
  forallb isspace sp = true -> not_headed_by isspace rest = true ->
  match_at false (Seq (lits w) (Star true ws)) (w ++ sp ++ rest)
  = Some (w ++ sp, rest, []).
Proof.
  intros Hsp Hrest. unfold match_at. cbn [rx_match].
  rewrite rx_lits_exact.
  match goal with
  | |- star_greedy _ _ _ ?K = _ =>
      rewrite (star_greedy_exact ws sp rest [] K
                 (firstn (length (w ++ sp ++ rest) - length rest)
                         (w ++ sp ++ rest), rest, []) Hsp Hrest eq_refl)
  end.
  rewrite app_assoc, firstn_matched. reflexivity.
Qed.

Lemma skip_matched ic r m rest :
  sub_remove_from ic r (length m) (m ++ rest) = sub_remove_from ic r 0 rest.
Proof. induction m as [|c m IH]; [reflexivity|exact IH]. Qed.

Lemma sub_match ic r s x m rest caps :
  match_at ic r s = Some (x :: m, rest, caps) ->
  sub_remove ic r s = sub_remove ic r rest.
Proof.
  intros H. pose proof (match_at_sound _ _ _ _ _ _ H) as [E _]. subst s.
  unfold sub_remove. simpl. simpl in H. rewrite H. apply skip_matched.
Qed.

Lemma sub_copy c0 w X a b :
  ~ In c0 a ->
  sub_remove false (Seq (lits (c0 :: w)) X) (a ++ b)
  = a ++ sub_remove false (Seq (lits (c0 :: w)) X) b.
Proof.
  unfold sub_remove. induction a as [|c a IH]; intros Ha; [reflexivity|].
  change ((c :: a) ++ b) with (c :: a ++ b). cbn [sub_remove_from app].
  destruct (match_at false (Seq (lits (c0 :: w)) X) (c :: a ++ b))
    as [[[m rest] caps]|] eqn:M.
  - destruct m as [|x m'].
    + rewrite IH; [reflexivity|]. intros H. apply Ha. now right.
    + exfalso. apply ExtractMore.match_starts in M as [m1 [s1 [_ [= -> _]]]].
      apply Ha. now left.
  - rewrite IH; [reflexivity|]. intros H. apply Ha. now right.
Qed.

Lemma space_is_not c : isspace c = true -> c <> tick /\ c <> "s"%char.
Proof.
  destruct c as [[] [] [] [] [] [] [] []]; vm_compute; intros H;
    try discriminate H; split; discriminate.
Qed.

Lemma spaces_tick_free sp : forallb isspace sp = true -> ~ In tick sp.
Proof.
  induction sp as [|c sp IH]; simpl; [auto|].
  intros H. apply andb_true_iff in H as [Hc Hsp].
  intros [E|Hin]; [|now apply IH].
  destruct (space_is_not c Hc) as [N _]. now apply N.
Qed.

Lemma absent_char_word c0 w s : ~ In c0 s -> contains (c0 :: w) s = false.
Proof.
  induction s as [|c s IH]; intros H; [reflexivity|].
  simpl. rewrite IH by (intros Hin; apply H; now right).
  destruct (Ascii.eqb_spec c0 c) as [->|N]; [|reflexivity].
  elim H. now left.
Qed.

(** A closing fence is not taken for a language-tagged one. *)
Lemma closing_fence_kept sp :
  forallb isspace sp = true ->
  sub_remove false FENCE_SQL (backticks ++ sp) = backticks ++ sp.
Proof.
  intros Hsp.
  change FENCE_SQL with (Seq (lits (str "```s" ++ str "ql")) (Star true ws)).
  apply Extract.sub_remove_marker_free.
  pose proof (absent_char_word tick (str "``s") sp (spaces_tick_free sp Hsp)) as T.
  change (tick :: str "``s") with (str "```s") in T.
  destruct sp as [|c sp]; [reflexivity|].
  simpl in Hsp. apply andb_true_iff in Hsp as [Hc _].
  destruct (space_is_not c Hc) as [N1 N2].
  change (contains (str "```s") (backticks ++ c :: sp))
    with ((Ascii.eqb "s" c && true)
          || ((Ascii.eqb tick c && startswith sp (str "s"))
              || ((Ascii.eqb tick c && startswith sp (str "`s"))
                  || contains (str "```s") (c :: sp)))).
  rewrite T.
  destruct (Ascii.eqb_spec "s" c) as [E|_]; [now elim N2|].
  destruct (Ascii.eqb_spec tick c) as [E|_]; [now elim N1|]. reflexivity.
Qed.

Lemma fenced_block pre sp1 body sp2 :
  ~ In tick pre -> ~ In tick body ->
  forallb isspace sp1 = true -> forallb isspace sp2 = true ->
  not_headed_by isspace body = true ->
  strip_fences (pre ++ str "```sql" ++ sp1 ++ body ++ backticks ++ sp2)
  = pre ++ body.
Proof.
  intros Hpre Hbody H1 H2 Hb. unfold strip_fences.
  assert (S1 : sub_remove false FENCE_SQL
                 (pre ++ str "```sql" ++ sp1 ++ body ++ backticks ++ sp2)
               = pre ++ body ++ backticks ++ sp2).
  { change FENCE_SQL with (Seq (lits (tick :: str "``sql")) (Star true ws)).
    rewrite (sub_copy tick _ _ pre _ Hpre). f_equal.
    assert (R : not_headed_by isspace (body ++ backticks ++ sp2) = true)
      by (destruct body; [reflexivity|exact Hb]).
    change (tick :: str "``sql") with (str "```sql").
    rewrite (sub_match _ _ _ _ _ _ _
               (marker_match_exact (str "```sql") sp1 _ H1 R)).
    change (str "```sql") with (tick :: str "``sql").
    rewrite (sub_copy tick _ _ body _ Hbody). f_equal.
    now apply closing_fence_kept. }
  rewrite S1.
  change FENCE with (Seq (lits (tick :: str "``")) (Star true ws)).
  rewrite (sub_copy tick _ _ pre _ Hpre), (sub_copy tick _ _ body _ Hbody).
  rewrite <- (app_nil_r sp2) at 1.
  change (tick :: str "``") with backticks.
  rewrite (sub_match _ _ _ _ _ _ _
             (marker_match_exact backticks sp2 [] H2 eq_refl)).
  now rewrite app_nil_r.
Qed.

Lemma sub_step ic r c s :
  match_at ic r (c :: s) = None ->
  sub_remove ic r (c :: s) = c :: sub_remove ic r s.
Proof. intros H. unfold sub_remove. simpl. now rewrite H. Qed.

Lemma no_match_unless w tag b :
  startswith b w = false ->
  match_at false (Seq (lits (w ++ tag)) (Star true ws)) b = None.
Proof.
  intros H.
  destruct (match_at false (Seq (lits (w ++ tag)) (Star true ws)) b) eqn:M;
    [|reflexivity].
  apply Extract.marker_starts_match in M. congruence.
Qed.

(** An opening fence followed by white space is not taken for a
    language-tagged one. *)
Lemma opening_fence_kept c x :
  isspace c = true ->
  sub_remove false FENCE_SQL (backticks ++ c :: x)
  = backticks ++ sub_remove false FENCE_SQL (c :: x).
Proof.
  intros Hc. destruct (space_is_not c Hc) as [N1 N2].
  assert (T : Ascii.eqb tick c = false)
    by (destruct (Ascii.eqb_spec tick c) as [E|_]; [now elim N1|reflexivity]).
  assert (S : Ascii.eqb "s" c = false)
    by (destruct (Ascii.eqb_spec "s" c) as [E|_]; [now elim N2|reflexivity]).
  change (backticks ++ c :: x) with (tick :: tick :: tick :: c :: x).
  rewrite sub_step, sub_step, sub_step; [reflexivity| | |].
  - change FENCE_SQL with (Seq (lits (str "``" ++ str "`sql")) (Star true ws)).
    apply no_match_unless.
    change (startswith (tick :: c :: x) (str "``"))
      with (Ascii.eqb tick tick && (Ascii.eqb tick c && true)).
    now rewrite T.
  - change FENCE_SQL with (Seq (lits (str "```" ++ str "sql")) (Star true ws)).
    apply no_match_unless.
    change (startswith (tick :: tick :: c :: x) (str "```"))
      with (Ascii.eqb tick tick
            && (Ascii.eqb tick tick && (Ascii.eqb tick c && true))).
    now rewrite T.
  - change FENCE_SQL with (Seq (lits (str "```s" ++ str "ql")) (Star true ws)).
    apply no_match_unless.
    change (startswith (tick :: tick :: tick :: c :: x) (str "```s"))
      with (Ascii.eqb tick tick
            && (Ascii.eqb tick tick
                && (Ascii.eqb tick tick && (Ascii.eqb "s" c && true)))).
    now rewrite S.
Qed.

Lemma bare_fenced_block pre c sp1 body sp2 :
  ~ In tick pre -> ~ In tick body ->
  forallb isspace (c :: sp1) = true -> forallb isspace sp2 = true ->
  not_headed_by isspace body = true ->
  strip_fences (pre ++ backticks ++ (c :: sp1) ++ body ++ backticks ++ sp2)
  = pre ++ body.
Proof.
  intros Hpre Hbody H1 H2 Hb. unfold strip_fences.
  pose proof (spaces_tick_free _ H1) as T1.
  assert (Hc : isspace c = true)
    by (simpl in H1; now apply andb_true_iff in H1 as [Hc _]).
  assert (S1 : sub_remove false FENCE_SQL
                 (pre ++ backticks ++ (c :: sp1) ++ body ++ backticks ++ sp2)
               = pre ++ backticks ++ (c :: sp1) ++ body ++ backticks ++ sp2).
  { change FENCE_SQL with (Seq (lits (tick :: str "``sql")) (Star true ws)).
    rewrite (sub_copy tick _ _ pre _ Hpre). f_equal.
    change (tick :: str "``sql") with (str "```sql").
    change (Seq (lits (str "```sql")) (Star true ws)) with FENCE_SQL.
    change ((c :: sp1) ++ body ++ backticks ++ sp2)
      with (c :: sp1 ++ body ++ backticks ++ sp2).
    rewrite (opening_fence_kept c _ Hc). f_equal.
    change (c :: sp1 ++ body ++ backticks ++ sp2)
      with ((c :: sp1) ++ body ++ backticks ++ sp2).
    change FENCE_SQL with (Seq (lits (tick :: str "``sql")) (Star true ws)).
    rewrite (sub_copy tick _ _ (c :: sp1) _ T1). f_equal.
    rewrite (sub_copy tick _ _ body _ Hbody). f_equal.
    now apply closing_fence_kept. }
  rewrite S1.
  change FENCE with (Seq (lits (tick :: str "``")) (Star true ws)).
  rewrite (sub_copy tick _ _ pre _ Hpre).
  change (tick :: str "``") with backticks.
  assert (R : not_headed_by isspace (body ++ backticks ++ sp2) = true)
    by (destruct body; [reflexivity|exact Hb]).
  rewrite (sub_match _ _ _ _ _ _ _
             (marker_match_exact backticks (c :: sp1) _ H1 R)).
  change backticks with (tick :: str "``") at 1.
  rewrite (sub_copy tick _ _ body _ Hbody).
  change (tick :: str "``") with backticks.
  rewrite <- (app_nil_r sp2) at 1.
  rewrite (sub_match _ _ _ _ _ _ _
             (marker_match_exact backticks sp2 [] H2 eq_refl)).
  now rewrite app_nil_r.
Qed.

End Fences.

(** X22.  A fenced block is unwrapped.  A text made of some prose without
    backticks, an opening fence ([```sql], or a bare [```] followed by
    white space), optional white space, a block without backticks, a
    closing fence and optional white space becomes the prose followed by
    the block: both markers go, together with the white space after
    them. *)
Theorem fenced_block_unwrapped (pre sp1 body sp2 : pystr) :
  ~ In tick pre -> ~ In tick body ->
  forallb isspace sp1 = true -> forallb isspace sp2 = true ->
  not_headed_by isspace body = true ->
  strip_fences (pre ++ str "```sql" ++ sp1 ++ body ++ backticks ++ sp2)
  = pre ++ body
  /\ (sp1 <> [] ->
      strip_fences (pre ++ backticks ++ sp1 ++ body ++ backticks ++ sp2)
      = pre ++ body).
Proof.
  intros Hpre Hbody H1 H2 Hb. split.
  - now apply Fences.fenced_block.
  - intros N. destruct sp1 as [|c sp1]; [now elim N|].
    now apply Fences.bare_fenced_block.
Qed.

(** ** Columns in the prompt, fields of the response *)

Module PromptColumns.

Lemma contains_refl w : contains w w = true.
Proof. rewrite <- (app_nil_r w) at 2. apply Prompt.contains_prefix. Qed.

Lemma contains_join sep x parts :
  In x parts -> contains x (join sep parts) = true.
Proof.
  induction parts as [|p ps IH]; intros H; [destruct H|].
  destruct ps as [|p' ps].
  - destruct H as [->|[]]. apply contains_refl.
  - change (join sep (p :: p' :: ps)) with (p ++ sep ++ join sep (p' :: ps)).
    destruct H as [->|H].
    + apply Prompt.contains_prefix.
    + now apply Prompt.contains_app_r, Prompt.contains_app_r, IH.
Qed.

Lemma prompt_has_columns table columns question sample_data err :
  contains (str "Columns: " ++ cols_detail columns ++ nl)
           (build_prompt table columns question sample_data err) = true.
Proof.
  rewrite Prompt.build_prompt_unfold.
  apply Prompt.contains_app_r, Prompt.contains_app_l.
  do 3 apply Prompt.contains_app_r. Prompt.chain_prefix.
Qed.

End PromptColumns.



(** ** Concrete instances of the further properties *)

Ltac not_among :=
  let H := fresh in
  vm_compute; intros H;
  repeat (destruct H as [H|H]; [discriminate H|]); exact H.

(** X1 at a statement with a trailing comment. *)
Lemma gate_accepts_iff_witness :
  fst (safe_sql_check (str "Select name from t where id = 3; -- note")) = true.
Proof.
  apply (proj2 (gate_accepts_iff _)). split; [vm_compute; reflexivity|].
  intros w Hw. simpl in Hw.
  repeat (destruct Hw as [<-|Hw]; [vm_compute; reflexivity|]). destruct Hw.
Defined.

(** X2 at two spellings of one statement. *)
Lemma gate_ignores_case_and_margins_witness :
  safe_sql_check (str "  SELECT 1 ") = safe_sql_check (str "select 1").
Proof.
  apply (gate_ignores_case_and_margins (str "  SELECT 1 ") (str "select 1")).
  vm_compute. reflexivity.
Defined.

(** X5 at a response with two statements. *)
Lemma extract_sql_single_statement_out_witness :
  count_occ ascii_dec (extract_sql (str "SELECT a; SELECT b;")) ";"%char = 1.
Proof.
  apply (extract_sql_single_statement_out (str "SELECT a; SELECT b;")).
  vm_compute. discriminate.
Defined.


(** X22 at the fenced response: ["Sure! "], the tagged fence, a newline,
    the statement with its newline, the closing fence. *)
Lemma fenced_block_unwrapped_witness :
  strip_fences (str "Sure! " ++ str "```sql" ++ nl
                    ++ (str "SELECT * FROM t;" ++ nl) ++ backticks ++ [])
  = str "Sure! " ++ str "SELECT * FROM t;" ++ nl.
Proof.
  refine (proj1 (fenced_block_unwrapped (str "Sure! ") nl
                   (str "SELECT * FROM t;" ++ nl) [] _ _ _ _ _));
    try reflexivity; not_among.
Defined.


(** X10 at ["Show me the TOP 7 rows"]. *)
Lemma detect_top_n_sound_witness :
  exists kw w ds,
    (kw = str "top" \/ kw = str "first")
    /\ w <> [] /\ forallb isspace w = true
    /\ ds <> [] /\ forallb isdecimal ds = true
    /\ contains (kw ++ w ++ ds) (lower (str "Show me the TOP 7 rows")) = true
    /\ 7%Z = int_of_digits ds /\ (0 <= 7)%Z.
Proof.
  apply (detect_top_n_sound (str "Show me the TOP 7 rows") 7).
  vm_compute. reflexivity.
Defined.


(** X12 at ["first 25 orders"] with table [orders] selected. *)
Lemma generate_fast_path_witness :
  generated_sql (final_state (on_generate offline (str "first 25 orders"))
                             orders_session)
  = str "SELECT * FROM `orders` LIMIT 25;".
Proof.
  apply (generate_fast_path offline orders_session (str "first 25 orders")
           (str "orders") 25); try (vm_compute; reflexivity); discriminate.
Defined.


(** X14 at ["how many orders?"] with the endpoint down. *)
Lemma generate_llm_outcome_witness :
  generated_sql (final_state (on_generate offline (str "how many orders?"))
                             orders_session)
  = str "SELECT * FROM `orders` LIMIT 100;".
Proof.
  apply (proj1 (proj2 (generate_llm_outcome offline orders_session
                         (str "how many orders?") eq_refl eq_refl))
               (str "connection refused")).
  vm_compute. reflexivity.
Defined.

(** X15 at a blocked statement. *)
Lemma run_outcome_witness :
  last_error (final_state (on_run offline (str "DROP TABLE orders"))
                          orders_session)
  = str "Only SELECT allowed.".
Proof.
  apply (proj1 (proj2 (run_outcome offline orders_session
                         (str "DROP TABLE orders")))).
  vm_compute. reflexivity.
Defined.

(** X16 in a session whose last run was blocked. *)
Lemma retry_feeds_error_back_witness :
  exists prompt,
    llm_calls (trace (on_retry offline)
                 (MkSession None (Some (str "orders")) [] [] []
                            (str "Only SELECT allowed.") (str "drop it")))
    = [prompt]
    /\ contains (str "PREVIOUS ATTEMPT FAILED WITH ERROR:" ++ nl
                     ++ str "Only SELECT allowed." ++ nl) prompt = true.
Proof.
  destruct (proj2 (retry_feeds_error_back offline
                     (MkSession None (Some (str "orders")) [] [] []
                                (str "Only SELECT allowed.") (str "drop it")))
                  eq_refl) as [prompt [H1 [H2 _]]].
  exists prompt. split; [exact H1|exact H2].
Defined.

(** X17 in such a session, with the endpoint down. *)
Lemma retry_keeps_sql_without_result_witness :
  generated_sql
    (final_state (on_retry offline)
       (MkSession None (Some (str "orders")) (str "DROP TABLE orders") [] []
                  (str "Only SELECT allowed.") (str "drop it")))
  = str "DROP TABLE orders".
Proof.
  apply (proj1 (retry_keeps_sql_without_result offline
                  (MkSession None (Some (str "orders")) (str "DROP TABLE orders")
                             [] [] (str "Only SELECT allowed.") (str "drop it"))
                  eq_refl) (str "connection refused")).
  vm_compute. reflexivity.
Defined.

(** X18: a blocked run followed by a retry. *)
Lemma run_then_retry_witness :
  exists prompt,
    llm_calls
      (trace (on_retry offline)
         (final_state (on_run offline (str "DROP TABLE orders"))
            (MkSession None (Some (str "orders")) [] [] [] [] (str "drop it"))))
    = [prompt]
    /\ contains (str "PREVIOUS ATTEMPT FAILED WITH ERROR:" ++ nl
                     ++ snd (safe_sql_check (strip (str "DROP TABLE orders")))
                     ++ nl) prompt = true.
Proof.
  apply (proj1 (run_then_retry offline
                  (MkSession None (Some (str "orders")) [] [] [] []
                             (str "drop it"))
                  (str "DROP TABLE orders") eq_refl)).
  vm_compute. reflexivity.
Defined.

(** X19 at the table [updates]. *)
Lemma own_queries_blocked_by_table_name_witness :
  exists V, In V forbidden
    /\ safe_sql_check (fallback_stub (Some (str "updates")))
       = (false, str "Forbidden keyword '" ++ V ++ str "'.").
Proof.
  apply (own_queries_blocked_by_table_name (str "updates") (str "update") 5).
  - vm_compute. right. right. left. reflexivity.
  - vm_compute. reflexivity.
Defined.

(** X20 with sample rows given. *)
Lemma build_prompt_frame_witness :
  contains (str "Sample Data (first 3 rows):" ++ nl ++ str " id" ++ nl)
           (build_prompt (str "orders") [] (str "how many orders?")
                         (str " id") []) = true.
Proof.
  apply (build_prompt_frame (str "orders") [] (str "how many orders?")
           (str " id") []).
  vm_compute. reflexivity.
Defined.

(** X21 at an unknown database and at a driver error without code. *)
Lemma mysql_error_messages_witness :
  contains (str "(" ++ format_int 1049 ++ str ")")
           (mysql_error_to_message (Some 1049%Z) (str "raw") (str "db.local")
                                   (str "3306") (str "shop")) = true
  /\ mysql_error_to_message None (str "raw") (str "db.local") (str "3306")
                            (str "shop") = str "raw".
Proof.
  split.
  - apply (proj1 (proj2 mysql_error_messages)). right. left. reflexivity.
  - apply (proj2 (proj2 mysql_error_messages)). intros e H. discriminate H.
Defined.


